(** * VividTodo: the Todo model and the TodoStore of app.js

    A shallow embedding of the store half of [app.js] (class [Todo] and the
    object [TodoStore]) together with the properties of its operations, and
    of the page's event handlers as far as they read and write the store,
    the input box, the filter and the list of tasks shown.

    - JavaScript values that can sit in a task's fields are the type [value];
      a task read back from storage is not validated by the code, so its
      fields are values, not strings and booleans.
    - The store's methods read and write [this._todos] and [localStorage] and
      [loadFromStorage] catches exceptions, so they live in a small state and
      exception monad [M].
    - [JSON.parse] and [JSON.stringify] belong to the JavaScript runtime, not to
      the program: they are the interface [JSONHost].  [RefJSON] is one
      runtime, written out and proved to read back what it writes.
    - The methods take ids, texts and the filter mode as strings, as the view
      passes them.  Strings are [string]: sequences of code units below 256.
    - Writing to [localStorage] is taken to succeed (no quota).
    - A task object is held by the array alone, so a method call on the
      object found in the array is an update of the array in place. *)

From Stdlib Require Import List String Ascii ZArith NArith Bool Arith Lia.
From Stdlib Require Import DecimalString DecimalN DecimalFacts.
From Stdlib Require DecimalPos.
From Stdlib Require Import Permutation.
Import ListNotations.
Local Open Scope string_scope.
Local Open Scope list_scope.

(* ------------------------------------------------------------------------- *)
(** ** JavaScript values *)
(* ------------------------------------------------------------------------- *)

(** [VNum m e] is the number written [m]e[e], that is [m * 10^e], before the
    runtime rounds it to a double.  The program never computes with numbers;
    it only tests them for truthiness. *)
#[local] Unset Elimination Schemes.
Inductive value : Type :=
| VUndefined
| VNull
| VBool (b : bool)
| VNum (m e : Z)
| VStr (s : string)
| VArr (elems : list value)
| VObj (props : list (string * value)).
#[local] Set Elimination Schemes.

(** A decimal rounds to the double zero exactly when its magnitude is at most
    [2^-1075], half of the least positive double. *)
Definition rounds_to_zero (m e : Z) : bool :=
  if (0 <=? e)%Z then (m =? 0)%Z
  else (Z.abs m * 2 ^ 1075 <=? 10 ^ (- e))%Z.

(** [ToBoolean]: what [if (v)], [!v] and [filter]'s callback result test. *)
Definition ToBoolean (v : value) : bool :=
  match v with
  | VUndefined | VNull => false
  | VBool b => b
  | VNum m e => negb (rounds_to_zero m e)
  | VStr s => negb (s =? EmptyString)%string
  | VArr _ | VObj _ => true
  end.

(** [v === s] for a string primitive [s]. *)
Definition strict_eq_str (v : value) (s : string) : bool :=
  match v with
  | VStr s' => (s' =? s)%string
  | _ => false
  end.

Section value_induction.
Variable P : value -> Prop.
Hypothesis Pundef : P VUndefined.
Hypothesis Pnull : P VNull.
Hypothesis Pbool : forall b, P (VBool b).
Hypothesis Pnum : forall m e, P (VNum m e).
Hypothesis Pstr : forall s, P (VStr s).
Hypothesis Parr : forall l, Forall P l -> P (VArr l).
Hypothesis Pobj : forall ps, Forall (fun kv => P (snd kv)) ps -> P (VObj ps).

Fixpoint value_ind (v : value) : P v :=
  match v with
  | VUndefined => Pundef
  | VNull => Pnull
  | VBool b => Pbool b
  | VNum m e => Pnum m e
  | VStr s => Pstr s
  | VArr l =>
      Parr l ((fix elems (l : list value) : Forall P l :=
               match l with
               | [] => Forall_nil P
               | x :: r => Forall_cons x (value_ind x) (elems r)
               end) l)
  | VObj ps =>
      Pobj ps ((fix members (ps : list (string * value))
               : Forall (fun kv => P (snd kv)) ps :=
               match ps with
               | [] => Forall_nil _
               | kv :: r =>
                   Forall_cons kv (value_ind (snd kv)) (members r)
               end) ps)
  end.
End value_induction.

(* ------------------------------------------------------------------------- *)
(** ** Array methods *)
(* ------------------------------------------------------------------------- *)

Section arrays.
Variable A : Type.

Fixpoint findIndex_from (p : A -> bool) (k : Z) (l : list A) : Z :=
  match l with
  | [] => (-1)%Z
  | x :: r => if p x then k else findIndex_from p (k + 1)%Z r
  end.

(** [l.findIndex(p)]: the index of the first element passing [p], or -1. *)
Definition findIndex (p : A -> bool) (l : list A) : Z := findIndex_from p 0 l.

(** [l.splice(start, deleteCount, ...ins)]: the removed elements and the
    array afterwards.  A negative [start] counts from the end and a [start]
    past the end is the end, as in JavaScript. *)
Definition splice (start deleteCount : Z) (ins l : list A)
  : list A * list A :=
  let len := Z.of_nat (List.length l) in
  let rel := if (start <? 0)%Z then Z.max (len + start) 0
             else Z.min start len in
  let del := Z.min (Z.max deleteCount 0) (len - rel) in
  let i := Z.to_nat rel in
  let d := Z.to_nat del in
  (firstn d (skipn i l), firstn i l ++ ins ++ skipn (i + d) l).

(** [const x = l.find(p); if (x) x.method()]: [x] is the array's own
    element, so the call changes the first element passing [p] in place. *)
Fixpoint mutate_first (p : A -> bool) (f : A -> A) (l : list A) : list A :=
  match l with
  | [] => []
  | x :: r => if p x then f x :: r else x :: mutate_first p f r
  end.
End arrays.
Arguments findIndex_from {A} p k l.
Arguments findIndex {A} p l.
Arguments splice {A} start deleteCount ins l.
Arguments mutate_first {A} p f l.

(* ------------------------------------------------------------------------- *)
(** ** The Todo model *)
(* ------------------------------------------------------------------------- *)

Record Todo : Type := mkTodo { id : value; text : value; completed : value }.

(** [new Todo(id, text, completed = false)]: the default applies exactly when
    the argument is [undefined]. *)
Definition new_Todo (i t c : value) : Todo :=
  mkTodo i t (match c with VUndefined => VBool false | _ => c end).

Definition toggle (t : Todo) : Todo :=
  mkTodo (id t) (text t) (VBool (negb (ToBoolean (completed t)))).

Definition setText (newText : value) (t : Todo) : Todo :=
  mkTodo (id t) newText (completed t).

(* ------------------------------------------------------------------------- *)
(** ** State, exceptions and the runtime's JSON *)
(* ------------------------------------------------------------------------- *)

Inductive error : Type := SyntaxError | TypeError.

Inductive completion (A : Type) : Type :=
| Normal (a : A)
| Throw (e : error).
Arguments Normal {A} a.
Arguments Throw {A} e.

(** The program's state: the array [TodoStore._todos] and the browser's
    [localStorage], a map from keys to strings ([None] is [null]). *)
Record State : Type := mkState {
  _todos : list Todo;
  localStorage : string -> option string
}.

Definition M (A : Type) : Type := State -> completion A * State.

Definition ret {A} (a : A) : M A := fun s => (Normal a, s).

Definition bind {A B} (m : M A) (k : A -> M B) : M B :=
  fun s => match m s with
           | (Normal a, s') => k a s'
           | (Throw e, s') => (Throw e, s')
           end.

Definition throw {A} (e : error) : M A := fun s => (Throw e, s).

(** [try { m } catch (e) { h e }]: the handler runs in the state the throw
    left behind. *)
Definition try_catch {A} (m : M A) (h : error -> M A) : M A :=
  fun s => match m s with
           | (Throw e, s') => h e s'
           | r => r
           end.

Declare Scope js_scope.
Delimit Scope js_scope with js.
Notation "x <- m ;; k" := (bind m (fun x => k))
  (at level 61, m at next level, right associativity) : js_scope.
Notation "m ;; k" := (bind m (fun _ => k))
  (at level 61, right associativity) : js_scope.
Local Open Scope js_scope.

Definition get_todos : M (list Todo) := fun s => (Normal (_todos s), s).

Definition set_todos (l : list Todo) : M unit :=
  fun s => (Normal tt, mkState l (localStorage s)).

Definition getItem (key : string) : M (option string) :=
  fun s => (Normal (localStorage s key), s).

Definition setItem (key val : string) : M unit :=
  fun s => (Normal tt,
            mkState (_todos s)
                    (fun k => if (k =? key)%string then Some val
                              else localStorage s k)).

(** The runtime's [JSON] object.  [JSON_parse] is [None] where [JSON.parse]
    throws a [SyntaxError]. *)
Class JSONHost : Type := {
  JSON_parse : string -> option value;
  JSON_stringify : value -> string
}.

(** The own property [key] of an object; [undefined] when it has none. *)
Fixpoint lookup (key : string) (ps : list (string * value)) : value :=
  match ps with
  | [] => VUndefined
  | (k, v) :: r => if (k =? key)%string then v else lookup key r
  end.

(** [o.key] for the keys the program reads, [id], [text] and [completed]:
    reading a property of [undefined] or [null] throws; an object gives its
    own property; no other value, and no prototype, has such a property. *)
Definition get_prop (o : value) (key : string) : M value :=
  match o with
  | VUndefined | VNull => throw TypeError
  | VObj ps => ret (lookup key ps)
  | _ => ret VUndefined
  end.

Fixpoint mapM {A B} (f : A -> M B) (l : list A) : M (list B) :=
  match l with
  | [] => ret []
  | x :: r => y <- f x ;; ys <- mapM f r ;; ret (y :: ys)
  end.

(** [data.map(f)] on a parsed value: only an array has a [map] method; on
    anything else the call throws a [TypeError]. *)
Definition array_map {B} (data : value) (f : value -> M B) : M (list B) :=
  match data with
  | VArr l => mapM f l
  | _ => throw TypeError
  end.

(* ------------------------------------------------------------------------- *)
(** ** TodoStore *)
(* ------------------------------------------------------------------------- *)

Module TodoStore.
Section methods.
Context {host : JSONHost}.

Definition _storageKey : string := "vividTodoItems".

(* ---------- Persistence ---------- *)

Definition loadFromStorage : M unit :=
  raw <- getItem _storageKey ;;
  match raw with
  | Some raw' =>
      if negb (raw' =? EmptyString)%string then
        try_catch
          (data <- (match JSON_parse raw' with
                    | Some v => ret v
                    | None => throw SyntaxError
                    end) ;;
           todos <- array_map data (fun item =>
                      i <- get_prop item "id" ;;
                      t <- get_prop item "text" ;;
                      c <- get_prop item "completed" ;;
                      ret (new_Todo i t c)) ;;
           set_todos todos)
          (fun e => (* console.error('Failed to parse stored todos:', e) *)
                    set_todos [])
      else set_todos []
  | None => set_todos []
  end.

(** The array [saveToStorage] hands to [JSON.stringify]. *)
Definition plain_objects (l : list Todo) : value :=
  VArr (map (fun t => VObj [("id", id t); ("text", text t);
                            ("completed", completed t)]) l).

Definition saveToStorage : M unit :=
  todos <- get_todos ;;
  setItem _storageKey (JSON_stringify (plain_objects todos)).

(* ---------- CRUD operations ---------- *)

(** [Date.now().toString() + Math.random().toString(36).substr(2, 5)], with
    [now] the clock's reading and [rnd36] the string
    [Math.random().toString(36)]. *)
Definition generate_id (now : N) (rnd36 : string) : string :=
  (NilEmpty.string_of_uint (N.to_uint now) ++ substring 2 5 rnd36)%string.

Definition addTodo (now : N) (rnd36 : string) (text : string) : M Todo :=
  let id := generate_id now rnd36 in
  let todo := new_Todo (VStr id) (VStr text) VUndefined in
  todos <- get_todos ;;
  set_todos (todos ++ [todo]) ;;
  saveToStorage ;;
  ret todo.

Definition editTodo (id' : string) (newText : string) : M unit :=
  todos <- get_todos ;;
  match find (fun t => strict_eq_str (id t) id') todos with
  | Some _ => (* if (todo): an object is truthy *)
      set_todos (mutate_first (fun t => strict_eq_str (id t) id')
                              (setText (VStr newText)) todos) ;;
      saveToStorage
  | None => ret tt
  end.

Definition toggleTodo (id' : string) : M unit :=
  todos <- get_todos ;;
  match find (fun t => strict_eq_str (id t) id') todos with
  | Some _ =>
      set_todos (mutate_first (fun t => strict_eq_str (id t) id')
                              toggle todos) ;;
      saveToStorage
  | None => ret tt
  end.

Definition deleteTodo (id' : string) : M unit :=
  todos <- get_todos ;;
  let index := findIndex (fun t => strict_eq_str (id t) id') todos in
  if negb (index =? -1)%Z then
    set_todos (snd (splice index 1 [] todos)) ;;
    saveToStorage
  else ret tt.

Definition clearCompleted : M unit :=
  todos <- get_todos ;;
  set_todos (filter (fun t => negb (ToBoolean (completed t))) todos) ;;
  saveToStorage.

(* ---------- Filtering ---------- *)

Definition filterTodos (filter' : string) : M (list Todo) :=
  todos <- get_todos ;;
  if (filter' =? "active")%string then
    ret (filter (fun t => negb (ToBoolean (completed t))) todos)
  else if (filter' =? "completed")%string then
    ret (filter (fun t => ToBoolean (completed t)) todos)
  else ret todos.

(* ---------- Re-ordering ---------- *)

Definition reorderTodos (draggedId targetId : string) : M unit :=
  if (draggedId =? targetId)%string then ret tt
  else
    todos <- get_todos ;;
    let draggedIdx := findIndex (fun t => strict_eq_str (id t) draggedId) todos in
    let targetIdx := findIndex (fun t => strict_eq_str (id t) targetId) todos in
    if ((draggedIdx =? -1) || (targetIdx =? -1))%Z then ret tt
    else
      let (removed, todos') := splice draggedIdx 1 [] todos in
      match removed with
      | draggedItem :: _ =>
          (* Adjust target index if the removal was before it *)
          let insertIdx := if (draggedIdx <? targetIdx)%Z
                           then (targetIdx - 1)%Z else targetIdx in
          set_todos (snd (splice insertIdx 0 [draggedItem] todos')) ;;
          saveToStorage
      | [] =>
          (* draggedItem would be undefined, and saveToStorage would throw
             on reading its id; the test of the indices above excludes it *)
          throw TypeError
      end.

End methods.
End TodoStore.

(* ------------------------------------------------------------------------- *)
(** ** What a runtime's JSON guarantees *)
(* ------------------------------------------------------------------------- *)

Definition all_digits (s : string) : bool :=
  negb (s =? EmptyString)%string &&
  forallb (fun c => (48 <=? N_of_ascii c)%N && (N_of_ascii c <=? 57)%N)
          (list_ascii_of_string s).

Fixpoint distinct (l : list string) : bool :=
  match l with
  | [] => true
  | k :: r => negb (existsb (String.eqb k) r) && distinct r
  end.

(** JSON data proper: [null], booleans, strings, arrays, and objects whose
    keys are distinct and not array indices (a JavaScript object lists those
    first, whatever the order they were set in).  Numbers are left out: a
    runtime writes a number in its own notation. *)
Fixpoint json_plain (v : value) : bool :=
  match v with
  | VNull | VBool _ | VStr _ => true
  | VUndefined | VNum _ _ => false
  | VArr l => forallb json_plain l
  | VObj ps =>
      distinct (map fst ps) &&
      forallb (fun kv => negb (all_digits (fst kv))) ps &&
      forallb (fun kv => json_plain (snd kv)) ps
  end.

(** What the program relies on: JSON data is read back as it was written,
    and the empty text is not JSON. *)
Class JSONLaws (host : JSONHost) : Prop := {
  parse_stringify :
    forall v, json_plain v = true -> JSON_parse (JSON_stringify v) = Some v;
  parse_empty : JSON_parse EmptyString = None
}.

(* ------------------------------------------------------------------------- *)
(** ** A reference runtime *)
(* ------------------------------------------------------------------------- *)

(** A JSON writer and reader over code units below 256: a [\u] escape naming
    a larger code unit is outside what [string] carries and is refused.  A
    number is written as an integer followed, when needed, by an exponent. *)
Module RefJSON.

Definition chars : Type := list ascii.

Local Open Scope char_scope.

Definition quote_mark : ascii := "034".

(* ---------- writing ---------- *)

Definition hex_digit (n : N) : ascii :=
  match n with
  | 0 => "0" | 1 => "1" | 2 => "2" | 3 => "3" | 4 => "4" | 5 => "5"
  | 6 => "6" | 7 => "7" | 8 => "8" | 9 => "9" | 10 => "a" | 11 => "b"
  | 12 => "c" | 13 => "d" | 14 => "e" | _ => "f"
  end%N.

Definition escape_char (c : ascii) : chars :=
  let n := N_of_ascii c in
  if (n =? 34)%N then ["\"; quote_mark]
  else if (n =? 92)%N then ["\"; "\"]
  else if (n =? 8)%N then ["\"; "b"]
  else if (n =? 9)%N then ["\"; "t"]
  else if (n =? 10)%N then ["\"; "n"]
  else if (n =? 12)%N then ["\"; "f"]
  else if (n =? 13)%N then ["\"; "r"]
  else if (n <? 32)%N
       then ["\"; "u"; "0"; "0"; hex_digit (n / 16); hex_digit (n mod 16)]
  else [c].

Definition quote (s : string) : chars :=
  quote_mark :: flat_map escape_char (list_ascii_of_string s) ++ [quote_mark].

Fixpoint join_commas (l : list chars) : chars :=
  match l with
  | [] => []
  | [x] => x
  | x :: r => x ++ "," :: join_commas r
  end.

Fixpoint somes {A} (l : list (option A)) : list A :=
  match l with
  | [] => []
  | Some x :: r => x :: somes r
  | None :: r => somes r
  end.

Definition print_number (m e : Z) : chars :=
  if (0 <=? e)%Z
  then list_ascii_of_string (NilZero.string_of_int (Z.to_int (m * 10 ^ e)))
  else list_ascii_of_string (NilZero.string_of_int (Z.to_int m)) ++
       "e" :: list_ascii_of_string (NilZero.string_of_int (Z.to_int e)).

Definition is_undefined (v : value) : bool :=
  match v with VUndefined => true | _ => false end.

(** Inside an array [undefined] is written [null]; a property whose value is
    [undefined] is left out. *)
Fixpoint print (v : value) : chars :=
  match v with
  | VUndefined | VNull => list_ascii_of_string "null"
  | VBool true => list_ascii_of_string "true"
  | VBool false => list_ascii_of_string "false"
  | VNum m e => print_number m e
  | VStr s => quote s
  | VArr l => "[" :: join_commas (map print l) ++ ["]"]
  | VObj ps =>
      "{" :: join_commas
               (somes (map (fun kv =>
                              if is_undefined (snd kv) then None
                              else Some (quote (fst kv) ++
                                         ":" :: print (snd kv))) ps)) ++ ["}"]
  end.

(** [JSON.stringify(undefined)] is [undefined], which [setItem] would store
    as that word. *)
Definition stringify (v : value) : string :=
  match v with
  | VUndefined => "undefined"%string
  | _ => string_of_list_ascii (print v)
  end.

(* ---------- reading ---------- *)

Definition is_ws (c : ascii) : bool :=
  let n := N_of_ascii c in
  ((n =? 32) || (n =? 9) || (n =? 10) || (n =? 13))%N.

Fixpoint skip_ws (s : chars) : chars :=
  match s with
  | c :: r => if is_ws c then skip_ws r else s
  | [] => []
  end.

Fixpoint strip_prefix (p s : chars) : option chars :=
  match p, s with
  | [], _ => Some s
  | a :: p', b :: s' => if (a =? b)%char then strip_prefix p' s' else None
  | _ :: _, [] => None
  end.

Definition hex_value (c : ascii) : option N :=
  let n := N_of_ascii c in
  if ((48 <=? n) && (n <=? 57))%N then Some (n - 48)%N
  else if ((97 <=? n) && (n <=? 102))%N then Some (n - 87)%N
  else if ((65 <=? n) && (n <=? 70))%N then Some (n - 55)%N
  else None.

Definition hex4 (a b c d : ascii) : option N :=
  match hex_value a, hex_value b, hex_value c, hex_value d with
  | Some x, Some y, Some z, Some w => Some (((x * 16 + y) * 16 + z) * 16 + w)%N
  | _, _, _, _ => None
  end.

Definition simple_escape (e : ascii) : option ascii :=
  let n := N_of_ascii e in
  if (n =? 34)%N then Some quote_mark
  else if (n =? 92)%N then Some "\"
  else if (n =? 47)%N then Some "/"
  else if (n =? 98)%N then Some "008"
  else if (n =? 102)%N then Some "012"
  else if (n =? 110)%N then Some "010"
  else if (n =? 114)%N then Some "013"
  else if (n =? 116)%N then Some "009"
  else None.

Definition push (c : ascii) (r : option (string * chars))
  : option (string * chars) :=
  match r with
  | Some (s, rest) => Some (String c s, rest)
  | None => None
  end.

(** The characters of a string after its opening quote, up to and including
    the closing one. *)
Fixpoint parse_string_body (s : chars) : option (string * chars) :=
  match s with
  | [] => None
  | c :: r =>
      if (c =? quote_mark)%char then Some (EmptyString, r)
      else if (c =? "\")%char then
        match r with
        | [] => None
        | e :: r1 =>
            match simple_escape e with
            | Some c' => push c' (parse_string_body r1)
            | None =>
                if (e =? "u")%char then
                  match r1 with
                  | h1 :: h2 :: h3 :: h4 :: r2 =>
                      match hex4 h1 h2 h3 h4 with
                      | Some n =>
                          if (n <? 256)%N
                          then push (ascii_of_N n) (parse_string_body r2)
                          else None
                      | None => None
                      end
                  | _ => None
                  end
                else None
            end
        end
      else if (N_of_ascii c <? 32)%N then None
      else push c (parse_string_body r)
  end.

Definition digit_value (c : ascii) : option Z :=
  let n := N_of_ascii c in
  if ((48 <=? n) && (n <=? 57))%N then Some (Z.of_N n - 48)%Z else None.

(** Reads digits onto [acc]; also counts them. *)
Fixpoint digits (acc : Z) (count : Z) (s : chars) : Z * Z * chars :=
  match s with
  | c :: r =>
      match digit_value c with
      | Some d => digits (10 * acc + d) (count + 1) r
      | None => (acc, count, s)
      end
  | [] => (acc, count, s)
  end.

Definition parse_exponent (m e : Z) (s : chars) : option (value * chars) :=
  match s with
  | c :: r =>
      if ((c =? "e") || (c =? "E"))%char then
        let '(neg, r1) :=
          match r with
          | c1 :: r' => if (c1 =? "-")%char then (true, r')
                        else if (c1 =? "+")%char then (false, r')
                        else (false, r)
          | [] => (false, r)
          end in
        let '(x, n, r2) := digits 0 0 r1 in
        if (n =? 0)%Z then None
        else Some (VNum m (e + if neg then - x else x), r2)
      else Some (VNum m e, s)
  | [] => Some (VNum m e, s)
  end.

Definition parse_fraction (neg : bool) (m : Z) (s : chars)
  : option (value * chars) :=
  let signed (x : Z) := if neg then (- x)%Z else x in
  match s with
  | c :: r =>
      if (c =? ".")%char then
        let '(m', n, r1) := digits m 0 r in
        if (n =? 0)%Z then None else parse_exponent (signed m') (- n) r1
      else parse_exponent (signed m) 0 s
  | [] => parse_exponent (signed m) 0 s
  end.

Definition parse_number (s : chars) : option (value * chars) :=
  let '(neg, s1) :=
    match s with
    | c :: r => if (c =? "-")%char then (true, r) else (false, s)
    | [] => (false, s)
    end in
  match s1 with
  | c :: r =>
      match digit_value c with
      | Some 0%Z => parse_fraction neg 0 r
      | Some d => let '(m, _, r1) := digits d 0 r in parse_fraction neg m r1
      | None => None
      end
  | [] => None
  end.

(** A later property of the same name replaces the value of the earlier one,
    at the earlier one's place. *)
Fixpoint obj_set (k : string) (v : value) (ps : list (string * value))
  : list (string * value) :=
  match ps with
  | [] => [(k, v)]
  | (k', v') :: r =>
      if (k' =? k)%string then (k', v) :: r else (k', v') :: obj_set k v r
  end.

Definition make_object (ps : list (string * value)) : value :=
  VObj (fold_left (fun acc kv => obj_set (fst kv) (snd kv) acc) ps []).

Fixpoint parse_value (fuel : nat) (s : chars) : option (value * chars) :=
  match fuel with
  | O => None
  | S f =>
      match skip_ws s with
      | [] => None
      | c :: r =>
          if (c =? quote_mark)%char then
            match parse_string_body r with
            | Some (str, r1) => Some (VStr str, r1)
            | None => None
            end
          else if (c =? "[")%char then
            match strip_prefix ["]"] (skip_ws r) with
            | Some r1 => Some (VArr [], r1)
            | None =>
                match parse_elements f r with
                | Some (l, r1) => Some (VArr l, r1)
                | None => None
                end
            end
          else if (c =? "{")%char then
            match strip_prefix ["}"] (skip_ws r) with
            | Some r1 => Some (VObj [], r1)
            | None =>
                match parse_members f r with
                | Some (ps, r1) => Some (make_object ps, r1)
                | None => None
                end
            end
          else
            match strip_prefix (list_ascii_of_string "null") (c :: r) with
            | Some r1 => Some (VNull, r1)
            | None =>
            match strip_prefix (list_ascii_of_string "true") (c :: r) with
            | Some r1 => Some (VBool true, r1)
            | None =>
            match strip_prefix (list_ascii_of_string "false") (c :: r) with
            | Some r1 => Some (VBool false, r1)
            | None => parse_number (c :: r)
            end end end
      end
  end

with parse_elements (fuel : nat) (s : chars) : option (list value * chars) :=
  match fuel with
  | O => None
  | S f =>
      match parse_value f s with
      | Some (v, r) =>
          match skip_ws r with
          | c :: r1 =>
              if (c =? ",")%char then
                match parse_elements f r1 with
                | Some (l, r2) => Some (v :: l, r2)
                | None => None
                end
              else if (c =? "]")%char then Some ([v], r1)
              else None
          | [] => None
          end
      | None => None
      end
  end

with parse_members (fuel : nat) (s : chars)
  : option (list (string * value) * chars) :=
  match fuel with
  | O => None
  | S f =>
      match strip_prefix [quote_mark] (skip_ws s) with
      | Some r =>
          match parse_string_body r with
          | Some (k, r1) =>
              match strip_prefix [":"] (skip_ws r1) with
              | Some r2 =>
                  match parse_value f r2 with
                  | Some (v, r3) =>
                      match skip_ws r3 with
                      | c :: r4 =>
                          if (c =? ",")%char then
                            match parse_members f r4 with
                            | Some (ps, r5) => Some ((k, v) :: ps, r5)
                            | None => None
                            end
                          else if (c =? "}")%char then Some ([(k, v)], r4)
                          else None
                      | [] => None
                      end
                  | None => None
                  end
              | None => None
              end
          | None => None
          end
      | None => None
      end
  end.

Definition parse (s : string) : option value :=
  let cs := list_ascii_of_string s in
  match parse_value (2 * List.length cs + 2) cs with
  | Some (v, r) => match skip_ws r with [] => Some v | _ :: _ => None end
  | None => None
  end.

(** Fuel that is enough to read a value back. *)
Fixpoint fuel_for (v : value) : nat :=
  match v with
  | VArr l =>
      S ((fix elems (l : list value) : nat :=
            match l with
            | [] => O
            | x :: r => S (fuel_for x + elems r)
            end) l)
  | VObj ps =>
      S ((fix members (ps : list (string * value)) : nat :=
            match ps with
            | [] => O
            | kv :: r => S (fuel_for (snd kv) + members r)
            end) ps)
  | _ => 1%nat
  end.

Fixpoint elements_fuel (l : list value) : nat :=
  match l with
  | [] => O
  | x :: r => S (fuel_for x + elements_fuel r)
  end.

Fixpoint members_fuel (ps : list (string * value)) : nat :=
  match ps with
  | [] => O
  | kv :: r => S (fuel_for (snd kv) + members_fuel r)
  end.

(** How a property is written. *)
Definition print_member (kv : string * value) : chars :=
  quote (fst kv) ++ ":" :: print (snd kv).

(** The characters a written value can begin with. *)
Definition value_start (c : ascii) : bool :=
  ((c =? "n") || (c =? "t") || (c =? "f") || (c =? quote_mark) ||
   (c =? "[") || (c =? "{"))%char.

(** What the induction over values shows for each value: it is read back
    from what was written for it, and the fuel it needs is bounded by the
    length of what was written. *)
Definition reads_back (v : value) : Prop :=
  json_plain v = true ->
  forall (fuel : nat) (rest : chars),
    (fuel_for v <= fuel)%nat ->
    parse_value fuel (print v ++ rest) = Some (v, rest).

Definition fuel_bounded (v : value) : Prop :=
  json_plain v = true -> (fuel_for v <= 2 * List.length (print v))%nat.

#[export] Instance host : JSONHost :=
  {| JSON_parse := parse; JSON_stringify := stringify |}.

End RefJSON.

(* ------------------------------------------------------------------------- *)
(** ** Vocabulary of the properties *)
(* ------------------------------------------------------------------------- *)

(** A session that has nothing in memory and nothing in storage. *)
Definition fresh_session : State := mkState [] (fun _ => None).

(** The state with tasks [l] in memory right after they have been written to
    storage [ls]. *)
Definition persisted {host : JSONHost}
    (l : list Todo) (ls : string -> option string) : State :=
  mkState l (fun k => if (k =? TodoStore._storageKey)%string
                      then Some (JSON_stringify (TodoStore.plain_objects l))
                      else ls k).

(** The spec's Task: [id] and [text] strings, [completed] a boolean.  Every
    task the store creates is one; a task read from storage need not be. *)
Definition is_string (v : value) : bool :=
  match v with VStr _ => true | _ => false end.

Definition is_boolean (v : value) : bool :=
  match v with VBool _ => true | _ => false end.

Definition typed_task (t : Todo) : bool :=
  is_string (id t) && is_string (text t) && is_boolean (completed t).

(** A task whose three fields are JSON data; every typed task is one. *)
Definition storable_task (t : Todo) : bool :=
  json_plain (id t) && json_plain (text t) && json_plain (completed t).

(** [t.completed === b]. *)
Definition completed_is (b : bool) (t : Todo) : bool :=
  match completed t with
  | VBool b' => Bool.eqb b' b
  | _ => false
  end.

Definition has_id (i : string) (l : list Todo) : bool :=
  existsb (fun t => strict_eq_str (id t) i) l.

(** The stored value is the serialization of the tasks in memory. *)
Definition in_sync {host : JSONHost} (s : State) : Prop :=
  localStorage s TodoStore._storageKey
  = Some (JSON_stringify (TodoStore.plain_objects (_todos s))).

(** The mutating calls the view can make. *)
Inductive operation : Type :=
| Add (now : N) (rnd36 text' : string)
| Edit (id' newText : string)
| Toggle (id' : string)
| Remove (id' : string)
| ClearCompleted
| Reorder (draggedId targetId : string).

Definition perform {host : JSONHost} (o : operation) : M unit :=
  match o with
  | Add now rnd36 text' => TodoStore.addTodo now rnd36 text' ;; ret tt
  | Edit id' newText => TodoStore.editTodo id' newText
  | Toggle id' => TodoStore.toggleTodo id'
  | Remove id' => TodoStore.deleteTodo id'
  | ClearCompleted => TodoStore.clearCompleted
  | Reorder draggedId targetId => TodoStore.reorderTodos draggedId targetId
  end.

(** Whether a call finds what it names, and so goes on to change the tasks
    and save them. *)
Definition takes_effect (o : operation) (l : list Todo) : bool :=
  match o with
  | Add _ _ _ | ClearCompleted => true
  | Edit i _ | Toggle i | Remove i => has_id i l
  | Reorder d t => negb (d =? t)%string && has_id d l && has_id t l
  end.

(** A run of [addTodo] calls, each with its clock reading, its random string
    and its text. *)
Fixpoint add_all {host : JSONHost} (calls : list (N * string * string))
  : M unit :=
  match calls with
  | [] => ret tt
  | (now, rnd36, text') :: r =>
      TodoStore.addTodo now rnd36 text' ;; add_all r
  end.

(** The two parts of a generated id. *)
Definition stamp (now : N) : string := NilEmpty.string_of_uint (N.to_uint now).
Definition suffix (rnd36 : string) : string := substring 2 5 rnd36.

Definition task_of_call (c : N * string * string) : Todo :=
  new_Todo (VStr (TodoStore.generate_id (fst (fst c)) (snd (fst c))))
           (VStr (snd c)) VUndefined.

(** Reading the three properties off a parsed element that is neither
    [null] nor [undefined], and the task built from them. *)
Definition own_or_undefined (o : value) (key : string) : value :=
  match o with
  | VObj ps => lookup key ps
  | _ => VUndefined
  end.

(** The callback [loadFromStorage] maps over the parsed array. *)
Definition read_item (item : value) : M Todo :=
  i <- get_prop item "id" ;;
  t <- get_prop item "text" ;;
  c <- get_prop item "completed" ;;
  ret (new_Todo i t c).

Definition rehydrate (item : value) : Todo :=
  new_Todo (own_or_undefined item "id") (own_or_undefined item "text")
           (own_or_undefined item "completed").

Definition is_nullish (v : value) : bool :=
  match v with VUndefined | VNull => true | _ => false end.

(** The shape the spec gives the stored value: an array of objects with
    exactly the properties [id] (a string), [text] (a string) and
    [completed] (a boolean). *)
Definition todo_shaped (v : value) : bool :=
  match v with
  | VObj ps =>
      (List.length ps =? 3)%nat && is_string (lookup "id" ps) &&
      is_string (lookup "text" ps) && is_boolean (lookup "completed" ps)
  | _ => false
  end.

Definition well_shaped (v : value) : bool :=
  match v with
  | VArr l => forallb todo_shaped l
  | _ => false
  end.

(** A session with nothing in memory and [raw] stored under the key. *)
Definition session_with (raw : string) : State :=
  mkState [] (fun k => if (k =? TodoStore._storageKey)%string
                       then Some raw else None).

(** Three tasks, for examples. *)
Definition task_a : Todo := mkTodo (VStr "a") (VStr "buy milk") (VBool false).
Definition task_b : Todo := mkTodo (VStr "b") (VStr "walk dog") (VBool true).
Definition task_c : Todo := mkTodo (VStr "c") (VStr "call mum") (VBool false).
Definition three_tasks : State :=
  mkState [task_a; task_b; task_c] (fun _ => None).

(** Three typed tasks of which the first and the last carry one id, as two
    calls of [addTodo] with the same draw leave them. *)
Definition task_b_again : Todo :=
  mkTodo (VStr "b") (VStr "call mum") (VBool false).
Definition tasks_sharing_an_id : State :=
  mkState [task_b; task_a; task_b_again] (fun _ => None).

(** Two tasks are added and the first is then dragged onto the second. *)
Definition drag_first_onto_second {host : JSONHost}
    (now1 : N) (rnd1 text1 : string) (now2 : N) (rnd2 text2 : string)
  : M unit :=
  TodoStore.addTodo now1 rnd1 text1 ;;
  TodoStore.addTodo now2 rnd2 text2 ;;
  TodoStore.reorderTodos (TodoStore.generate_id now1 rnd1)
                         (TodoStore.generate_id now2 rnd2).

(* ------------------------------------------------------------------------- *)
(** ** Sessions *)
(* ------------------------------------------------------------------------- *)

(** One mutating call after another. *)
Fixpoint perform_all {host : JSONHost} (ops : list operation) : M unit :=
  match ops with
  | [] => ret tt
  | o :: r => perform o ;; perform_all r
  end.

(** What a later session finds: loading from the storage of [s] gives the
    tasks [s] has in memory. *)
Definition reloads {host : JSONHost} (s : State) : Prop :=
  forall other,
    localStorage other = localStorage s ->
    exists s',
      TodoStore.loadFromStorage other = (Normal tt, s') /\
      _todos s' = _todos s.

(* ------------------------------------------------------------------------- *)
(** ** The page and its event handlers *)
(* ------------------------------------------------------------------------- *)

(** Of the page the model keeps what the handlers read and write: the text
    in the input box, the filter in force, the id being dragged, and the
    tasks the list shows, in order.  [renderTodoItem] makes a list item from
    its task alone, so the list is given by the tasks it was rendered from;
    classes, ARIA attributes and focus are left out, and with them the
    handlers that only set classes ([dragover], [dragenter], [dragleave]).
    The handlers of a list item are those of an item made for a task whose
    id is a string, as every task [addTodo] makes has; the filter buttons
    carry their mode in [data-filter]. *)
Record Page : Type := mkPage {
  newTodoInput_value : string;
  todoList : list Todo;
  currentFilter : string;
  draggedTodoId : option string
}.

(** Handlers run on the store and the page together. *)
Definition V (A : Type) : Type :=
  State * Page -> completion A * (State * Page).

Definition retV {A} (a : A) : V A := fun w => (Normal a, w).

Definition bindV {A B} (m : V A) (k : A -> V B) : V B :=
  fun w => match m w with
           | (Normal a, w') => k a w'
           | (Throw e, w') => (Throw e, w')
           end.

(** A call of a store method from a handler. *)
Definition lift {A} (m : M A) : V A :=
  fun w => let (r, s') := m (fst w) in (r, (s', snd w)).

Declare Scope page_scope.
Delimit Scope page_scope with page.
Notation "x <- m ;; k" := (bindV m (fun x => k))
  (at level 61, m at next level, right associativity) : page_scope.
Notation "m ;; k" := (bindV m (fun _ => k))
  (at level 61, right associativity) : page_scope.

Definition get_page : V Page := fun w => (Normal (snd w), w).

Definition set_newTodoInput_value (v : string) : V unit :=
  fun w => (Normal tt,
            (fst w, mkPage v (todoList (snd w)) (currentFilter (snd w))
                           (draggedTodoId (snd w)))).

Definition set_todoList (l : list Todo) : V unit :=
  fun w => (Normal tt,
            (fst w, mkPage (newTodoInput_value (snd w)) l
                           (currentFilter (snd w)) (draggedTodoId (snd w)))).

Definition set_currentFilter (f : string) : V unit :=
  fun w => (Normal tt,
            (fst w, mkPage (newTodoInput_value (snd w)) (todoList (snd w)) f
                           (draggedTodoId (snd w)))).

Definition set_draggedTodoId (d : option string) : V unit :=
  fun w => (Normal tt,
            (fst w, mkPage (newTodoInput_value (snd w)) (todoList (snd w))
                           (currentFilter (snd w)) d)).

(** [String.prototype.trim] on code units below 256, where white space and
    line terminators are the tab, line feed, vertical tab, form feed,
    carriage return, space and no-break space. *)
Definition is_white_space (c : ascii) : bool :=
  let n := N_of_ascii c in
  (((9 <=? n) && (n <=? 13)) || (n =? 32) || (n =? 160))%N.

Fixpoint trim_start (s : string) : string :=
  match s with
  | EmptyString => EmptyString
  | String c r => if is_white_space c then trim_start r else s
  end.

Fixpoint trim_end (s : string) : string :=
  match s with
  | EmptyString => EmptyString
  | String c r =>
      match trim_end r with
      | EmptyString => if is_white_space c then EmptyString
                       else String c EmptyString
      | r' => String c r'
      end
  end.

Definition trim (s : string) : string := trim_end (trim_start s).

Module View.
Section handlers.
Context {host : JSONHost}.
Local Open Scope page_scope.

(** [renderTodoList(filter)]: the list is emptied and gets one item for each
    task [filterTodos] returns. *)
Definition renderTodoList (filter' : string) : V unit :=
  items <- lift (TodoStore.filterTodos filter') ;;
  set_todoList items.

(** [renderTodoList(currentFilter)], as every handler calls it. *)
Definition render_current : V unit :=
  p <- get_page ;;
  renderTodoList (currentFilter p).

(* ----- Event listeners of a list item, made for the task [todo] with
         [todo.id] the string [id'] ----- *)

(** Toggle completion: the checkbox's [change]. *)
Definition on_change (id' : string) : V unit :=
  lift (TodoStore.toggleTodo id') ;;
  render_current.

(** Inline edit: the span's [blur], with [todo.text] and the span's
    [textContent] as they are then. *)
Definition on_blur (id' : string) (todo_text : value) (textContent : string)
  : V unit :=
  let newText := trim textContent in
  if negb (newText =? EmptyString)%string &&
     negb (strict_eq_str todo_text newText)
  then
    lift (TodoStore.editTodo id' newText) ;;
    render_current
  else
    (* Reset displayed text if empty or unchanged *)
    retV tt.

(** Delete: the button's [click]. *)
Definition on_delete_click (id' : string) : V unit :=
  lift (TodoStore.deleteTodo id') ;;
  render_current.

Definition on_dragstart (id' : string) : V unit :=
  set_draggedTodoId (Some id').

Definition on_dragend : V unit :=
  set_draggedTodoId None.

(** [drop] on the item whose [dataset.id] is [targetId]. *)
Definition on_drop (targetId : string) : V unit :=
  p <- get_page ;;
  match draggedTodoId p with
  | Some draggedId =>
      if negb (draggedId =? EmptyString)%string &&
         negb (targetId =? EmptyString)%string
      then
        lift (TodoStore.reorderTodos draggedId targetId) ;;
        render_current
      else retV tt
  | None => retV tt
  end.

(* ----- UI event wiring ----- *)

(** Add new todo via Enter key: [keydown] on the input box, with the key
    pressed, and the clock and the random string [addTodo] would draw. *)
Definition on_keydown (key : string) (now : N) (rnd36 : string) : V unit :=
  if (key =? "Enter")%string then
    p <- get_page ;;
    let text' := trim (newTodoInput_value p) in
    if negb (text' =? EmptyString)%string then
      lift (TodoStore.addTodo now rnd36 text') ;;
      set_newTodoInput_value EmptyString ;;
      render_current
    else retV tt
  else retV tt.

(** A filter button's [click], with its [dataset.filter]. *)
Definition on_filter_click (mode : string) : V unit :=
  set_currentFilter mode ;;
  render_current.

(** The clear completed button's [click]. *)
Definition on_clear_completed_click : V unit :=
  lift TodoStore.clearCompleted ;;
  render_current.

(* ----- Application initialization ----- *)

Definition on_DOMContentLoaded : V unit :=
  lift TodoStore.loadFromStorage ;;
  set_currentFilter "all" ;;
  render_current.

End handlers.
End View.

(** What can happen on the page once it is loaded. *)
Inductive event : Type :=
| KeyDown (key : string) (now : N) (rnd36 : string)
| Change (id' : string)
| Blur (id' : string) (todo_text : value) (textContent : string)
| DeleteClick (id' : string)
| DragStart (id' : string)
| DragEnd
| Drop (targetId : string)
| FilterClick (mode : string)
| ClearCompletedClick.

Definition handle {host : JSONHost} (e : event) : V unit :=
  match e with
  | KeyDown key now rnd36 => View.on_keydown key now rnd36
  | Change id' => View.on_change id'
  | Blur id' todo_text textContent => View.on_blur id' todo_text textContent
  | DeleteClick id' => View.on_delete_click id'
  | DragStart id' => View.on_dragstart id'
  | DragEnd => View.on_dragend
  | Drop targetId => View.on_drop targetId
  | FilterClick mode => View.on_filter_click mode
  | ClearCompletedClick => View.on_clear_completed_click
  end.

(** The list shows what the filter in force selects from the store. *)
Definition shows_current_filter (w : State * Page) : Prop :=
  TodoStore.filterTodos (currentFilter (snd w)) (fst w)
  = (Normal (todoList (snd w)), fst w).

(** A text that is not empty and has no white space at either end. *)
Definition tidy_text (t : Todo) : bool :=
  match text t with
  | VStr s => negb (s =? EmptyString)%string && (trim s =? s)%string
  | _ => false
  end.

(** A page with nothing shown, for examples. *)
Definition blank_page : Page := mkPage EmptyString [] "all" None.

(* ------------------------------------------------------------------------- *)
(** ** The embedding at work *)
(* ------------------------------------------------------------------------- *)

Example splice_takes_one_out :
  splice 1 1 [] [10; 20; 30]%Z = ([20]%Z, [10; 30]%Z).
Proof. reflexivity. Qed.

Example splice_puts_one_in :
  splice 1 0 [15]%Z [10; 20; 30]%Z = ([], [10; 15; 20; 30]%Z).
Proof. reflexivity. Qed.

Example splice_counts_from_the_end :
  splice (-1) 1 [] [10; 20; 30]%Z = ([30]%Z, [10; 20]%Z).
Proof. reflexivity. Qed.

Example findIndex_of_second_and_of_none :
  findIndex (Z.eqb 20) [10; 20; 30; 20]%Z = 1%Z /\
  findIndex (Z.eqb 40) [10; 20; 30; 20]%Z = (-1)%Z.
Proof. split; reflexivity. Qed.

Example generate_id_concatenates :
  TodoStore.generate_id 1700000000000 "0.4fzyo82mvyr" = "17000000000004fzyo" /\
  TodoStore.generate_id 1700000000000 "0.i" = "1700000000000i" /\
  TodoStore.generate_id 1700000000000 "0" = "1700000000000".
Proof. repeat split; reflexivity. Qed.

Example tiny_numbers_are_falsy :
  ToBoolean (VNum 0 0) = false /\
  ToBoolean (VNum 1 (-400)) = false /\
  ToBoolean (VNum 5 (-324)) = true /\
  ToBoolean (VStr "no") = true /\
  ToBoolean (VStr EmptyString) = false.
Proof. repeat split; vm_compute; reflexivity. Qed.

Example reference_runtime_reads :
  RefJSON.parse "[ {}, [null, true], -1.5e3 ]"
  = Some (VArr [VObj []; VArr [VNull; VBool true]; VNum (-15) 2]) /\
  RefJSON.parse "[1,]" = None /\
  RefJSON.parse "{" = None /\
  RefJSON.parse "01" = None.
Proof. repeat split; vm_compute; reflexivity. Qed.

Example reference_runtime_writes :
  RefJSON.stringify
    (VArr [VObj [("id", VStr "a\b"); ("text", VUndefined);
                 ("completed", VBool false)];
           VUndefined])
  = RefJSON.stringify
      (VArr [VObj [("id", VStr "a\b"); ("completed", VBool false)]; VNull]).
Proof. vm_compute. reflexivity. Qed.

Example trim_strips_both_ends :
  trim "  buy milk " = "buy milk" /\
  trim (String "009" (String "160" "x y")) = "x y" /\
  trim "   " = EmptyString /\
  trim "a" = "a".
Proof. repeat split; reflexivity. Qed.

(* ------------------------------------------------------------------------- *)
(** ** Facts about the array methods *)
(* ------------------------------------------------------------------------- *)

Lemma strict_eq_str_true (v : value) (s : string) :
  strict_eq_str v s = true <-> v = VStr s.
Proof.
  destruct v; simpl; try (split; [discriminate | intros H; discriminate H]).
  rewrite String.eqb_eq. split; [intros -> | intros [= ->]]; reflexivity.
Qed.

Lemma strict_eq_str_false (v : value) (s : string) :
  strict_eq_str v s = false <-> v <> VStr s.
Proof.
  rewrite <- strict_eq_str_true. destruct (strict_eq_str v s); split; congruence.
Qed.

Section array_facts.
Variable A : Type.
Variable p : A -> bool.

(** Either no element passes [p], or the array splits at the first that
    does. *)
Lemma first_passing (l : list A) :
  Forall (fun x => p x = false) l \/
  exists pre x post,
    l = pre ++ x :: post /\ Forall (fun y => p y = false) pre /\ p x = true.
Proof.
  induction l as [|a l IH].
  - left. constructor.
  - destruct (p a) eqn:Ha.
    + right. exists [], a, l. repeat split; auto.
    + destruct IH as [IH | (pre & x & post & -> & Hpre & Hx)].
      * left. constructor; assumption.
      * right. exists (a :: pre), x, post. repeat split; auto.
Qed.

Lemma findIndex_from_none (l : list A) (k : Z) :
  Forall (fun x => p x = false) l -> findIndex_from p k l = (-1)%Z.
Proof.
  intros H. revert k. induction H as [|a l Ha _ IH]; intros k; simpl.
  - reflexivity.
  - rewrite Ha. apply IH.
Qed.

Lemma findIndex_from_first (pre : list A) (x : A) (post : list A) (k : Z) :
  Forall (fun y => p y = false) pre -> p x = true ->
  findIndex_from p k (pre ++ x :: post) = (k + Z.of_nat (List.length pre))%Z.
Proof.
  intros H Hx. revert k. induction H as [|a l Ha _ IH]; intros k; simpl.
  - rewrite Hx. lia.
  - rewrite Ha, IH. lia.
Qed.

Lemma findIndex_none (l : list A) :
  Forall (fun x => p x = false) l -> findIndex p l = (-1)%Z.
Proof. apply findIndex_from_none. Qed.

Lemma findIndex_first (pre : list A) (x : A) (post : list A) :
  Forall (fun y => p y = false) pre -> p x = true ->
  findIndex p (pre ++ x :: post) = Z.of_nat (List.length pre).
Proof. intros H Hx. unfold findIndex. rewrite findIndex_from_first; auto. Qed.

Lemma find_none (l : list A) :
  Forall (fun x => p x = false) l -> find p l = None.
Proof.
  induction 1 as [|a l Ha _ IH]; simpl; [reflexivity|]. rewrite Ha. exact IH.
Qed.

Lemma find_first (pre : list A) (x : A) (post : list A) :
  Forall (fun y => p y = false) pre -> p x = true ->
  find p (pre ++ x :: post) = Some x.
Proof.
  intros H Hx. induction H as [|a l Ha _ IH]; simpl.
  - rewrite Hx. reflexivity.
  - rewrite Ha. exact IH.
Qed.

Lemma mutate_first_first (f : A -> A) (pre : list A) (x : A) (post : list A) :
  Forall (fun y => p y = false) pre -> p x = true ->
  mutate_first p f (pre ++ x :: post) = pre ++ f x :: post.
Proof.
  intros H Hx. induction H as [|a l Ha _ IH]; simpl.
  - rewrite Hx. reflexivity.
  - rewrite Ha, IH. reflexivity.
Qed.

Lemma firstn_length_app (l1 l2 : list A) :
  firstn (List.length l1) (l1 ++ l2) = l1.
Proof. induction l1 as [|a l1 IH]; simpl; [reflexivity | now rewrite IH]. Qed.

Lemma skipn_length_app (n : nat) (l1 l2 : list A) :
  skipn (List.length l1 + n) (l1 ++ l2) = skipn n l2.
Proof. induction l1 as [|a l1 IH]; simpl; [reflexivity | exact IH]. Qed.

(** [splice(i, 1)] at the position of [x] takes exactly [x] out. *)
Lemma splice_remove (pre : list A) (x : A) (post : list A) :
  splice (Z.of_nat (List.length pre)) 1 [] (pre ++ x :: post)
  = ([x], pre ++ post).
Proof.
  unfold splice.
  assert (Hlen : List.length (pre ++ x :: post)
                 = S (List.length pre + List.length post))
    by (rewrite length_app; simpl; lia).
  rewrite Hlen.
  replace (Z.of_nat (List.length pre) <? 0)%Z with false
    by (symmetry; apply Z.ltb_ge; lia).
  replace (Z.to_nat (Z.min (Z.of_nat (List.length pre))
                           (Z.of_nat (S (List.length pre + List.length post)))))
    with (List.length pre) by lia.
  replace (Z.to_nat _) with 1%nat by lia.
  rewrite firstn_length_app, skipn_length_app.
  rewrite <- (Nat.add_0_r (List.length pre)) at 1.
  rewrite skipn_length_app. reflexivity.
Qed.

(** [splice(i, 0, d)] puts [d] in front of the element at index [i]. *)
Lemma splice_insert (d : A) (l1 l2 : list A) :
  splice (Z.of_nat (List.length l1)) 0 [d] (l1 ++ l2) = ([], l1 ++ d :: l2).
Proof.
  unfold splice. rewrite length_app.
  replace (Z.of_nat (List.length l1) <? 0)%Z with false
    by (symmetry; apply Z.ltb_ge; lia).
  replace (Z.to_nat (Z.min (Z.of_nat (List.length l1))
                           (Z.of_nat (List.length l1 + List.length l2))))
    with (List.length l1) by lia.
  replace (Z.to_nat _) with 0%nat by lia.
  rewrite firstn_length_app, skipn_length_app. reflexivity.
Qed.
End array_facts.
Arguments first_passing {A} p l.
Arguments findIndex_none {A} p l.
Arguments findIndex_first {A} p pre x post.
Arguments find_none {A} p l.
Arguments find_first {A} p pre x post.
Arguments mutate_first_first {A} p f pre x post.
Arguments splice_remove {A} pre x post.
Arguments splice_insert {A} d l1 l2.

Lemma Forall_id_differs (s : string) (l : list Todo) :
  Forall (fun x => strict_eq_str (id x) s = false) l <->
  Forall (fun x => id x <> VStr s) l.
Proof.
  split; intros H; eapply Forall_impl; try exact H;
    intros x; apply strict_eq_str_false.
Qed.

Lemma absent_id (s : string) (l : list Todo) :
  ~ In (VStr s) (map id l) ->
  Forall (fun x => strict_eq_str (id x) s = false) l.
Proof.
  intros H. apply Forall_forall. intros x Hx. apply strict_eq_str_false.
  intros E. apply H. rewrite <- E. apply in_map. exact Hx.
Qed.

Lemma present_id (s : string) (l : list Todo) :
  In (VStr s) (map id l) ->
  exists pre x post,
    l = pre ++ x :: post /\
    Forall (fun y => strict_eq_str (id y) s = false) pre /\
    strict_eq_str (id x) s = true.
Proof.
  intros H.
  destruct (first_passing (fun t => strict_eq_str (id t) s) l) as [Hno | Hyes].
  - exfalso. apply in_map_iff in H. destruct H as (x & Hid & Hx).
    rewrite Forall_forall in Hno. specialize (Hno x Hx).
    apply strict_eq_str_false in Hno. congruence.
  - exact Hyes.
Qed.

(* ------------------------------------------------------------------------- *)
(** ** Running the methods *)
(* ------------------------------------------------------------------------- *)

Section running.
Context {host : JSONHost}.
Import TodoStore.

Lemma bind_normal {A B} (m : M A) (k : A -> M B) (s s' : State) (a : A) :
  m s = (Normal a, s') -> bind m k s = k a s'.
Proof. intros H. unfold bind. rewrite H. reflexivity. Qed.

Lemma saveToStorage_run (s : State) :
  saveToStorage s = (Normal tt, persisted (_todos s) (localStorage s)).
Proof. reflexivity. Qed.

Lemma persisted_in_sync (l : list Todo) (ls : string -> option string) :
  in_sync (persisted l ls).
Proof. reflexivity. Qed.

Lemma addTodo_run (now : N) (rnd36 text' : string) (s : State) :
  addTodo now rnd36 text' s =
  (Normal (new_Todo (VStr (generate_id now rnd36)) (VStr text') VUndefined),
   persisted
     (_todos s ++
      [new_Todo (VStr (generate_id now rnd36)) (VStr text') VUndefined])
     (localStorage s)).
Proof. reflexivity. Qed.

Lemma clearCompleted_run (s : State) :
  clearCompleted s =
  (Normal tt,
   persisted (filter (fun t => negb (ToBoolean (completed t))) (_todos s))
             (localStorage s)).
Proof. reflexivity. Qed.

Lemma has_id_false (i : string) (l : list Todo) :
  has_id i l = false ->
  Forall (fun x => strict_eq_str (id x) i = false) l.
Proof.
  unfold has_id. induction l as [|a l IH]; simpl; intros H.
  - constructor.
  - apply orb_false_iff in H. destruct H as [Ha Hl].
    constructor; auto.
Qed.

Lemma has_id_true (i : string) (l : list Todo) :
  has_id i l = true -> In (VStr i) (map id l).
Proof.
  unfold has_id. intros H. apply existsb_exists in H.
  destruct H as (x & Hx & Hid). apply strict_eq_str_true in Hid.
  rewrite <- Hid. apply in_map. exact Hx.
Qed.

(** The three calls that look one task up, on a store that has it: the
    first task carrying the id is changed, or taken out, and the tasks are
    saved. *)
Lemma editTodo_found (s : State) (i newText : string)
      (pre : list Todo) (x : Todo) (post : list Todo) :
  _todos s = pre ++ x :: post ->
  Forall (fun y => strict_eq_str (id y) i = false) pre ->
  strict_eq_str (id x) i = true ->
  editTodo i newText s
  = (Normal tt,
     persisted (pre ++ setText (VStr newText) x :: post) (localStorage s)).
Proof.
  intros Hl Hpre Hx. unfold editTodo, bind, get_todos. rewrite Hl.
  rewrite (find_first _ _ _ _ Hpre Hx).
  rewrite (mutate_first_first _ _ _ _ _ Hpre Hx). reflexivity.
Qed.

Lemma toggleTodo_found (s : State) (i : string)
      (pre : list Todo) (x : Todo) (post : list Todo) :
  _todos s = pre ++ x :: post ->
  Forall (fun y => strict_eq_str (id y) i = false) pre ->
  strict_eq_str (id x) i = true ->
  toggleTodo i s
  = (Normal tt, persisted (pre ++ toggle x :: post) (localStorage s)).
Proof.
  intros Hl Hpre Hx. unfold toggleTodo, bind, get_todos. rewrite Hl.
  rewrite (find_first _ _ _ _ Hpre Hx).
  rewrite (mutate_first_first _ _ _ _ _ Hpre Hx). reflexivity.
Qed.

Lemma deleteTodo_found (s : State) (i : string)
      (pre : list Todo) (x : Todo) (post : list Todo) :
  _todos s = pre ++ x :: post ->
  Forall (fun y => strict_eq_str (id y) i = false) pre ->
  strict_eq_str (id x) i = true ->
  deleteTodo i s = (Normal tt, persisted (pre ++ post) (localStorage s)).
Proof.
  intros Hl Hpre Hx. unfold deleteTodo, bind, get_todos. rewrite Hl.
  rewrite (findIndex_first _ _ _ _ Hpre Hx), splice_remove.
  replace (_ =? -1)%Z with false by (symmetry; apply Z.eqb_neq; lia).
  reflexivity.
Qed.

Lemma editTodo_absent (s : State) (i newText : string) :
  Forall (fun y => strict_eq_str (id y) i = false) (_todos s) ->
  editTodo i newText s = (Normal tt, s).
Proof.
  intros H. unfold editTodo, bind, get_todos.
  rewrite (find_none _ _ H). reflexivity.
Qed.

Lemma toggleTodo_absent (s : State) (i : string) :
  Forall (fun y => strict_eq_str (id y) i = false) (_todos s) ->
  toggleTodo i s = (Normal tt, s).
Proof.
  intros H. unfold toggleTodo, bind, get_todos.
  rewrite (find_none _ _ H). reflexivity.
Qed.

Lemma deleteTodo_absent (s : State) (i : string) :
  Forall (fun y => strict_eq_str (id y) i = false) (_todos s) ->
  deleteTodo i s = (Normal tt, s).
Proof.
  intros H. unfold deleteTodo, bind, get_todos.
  rewrite (findIndex_none _ _ H). reflexivity.
Qed.

Lemma reorderTodos_same (s : State) (x : string) :
  reorderTodos x x s = (Normal tt, s).
Proof. unfold reorderTodos. rewrite String.eqb_refl. reflexivity. Qed.

Lemma reorderTodos_dragged_absent (s : State) (draggedId targetId : string) :
  Forall (fun y => strict_eq_str (id y) draggedId = false) (_todos s) ->
  reorderTodos draggedId targetId s = (Normal tt, s).
Proof.
  intros H. unfold reorderTodos, bind, get_todos.
  destruct (draggedId =? targetId)%string; [reflexivity|].
  rewrite (findIndex_none _ _ H). reflexivity.
Qed.

Lemma reorderTodos_target_absent (s : State) (draggedId targetId : string) :
  Forall (fun y => strict_eq_str (id y) targetId = false) (_todos s) ->
  reorderTodos draggedId targetId s = (Normal tt, s).
Proof.
  intros H. unfold reorderTodos, bind, get_todos.
  destruct (draggedId =? targetId)%string; [reflexivity|].
  rewrite (findIndex_none _ _ H), orb_true_r. reflexivity.
Qed.

(** [reorderTodos] once both lookups have succeeded, with the dragged task
    behind the target. *)
Lemma reorder_backward (s : State) (draggedId targetId : string)
      (l1 : list Todo) (t : Todo) (mid : list Todo) (d : Todo)
      (post : list Todo) :
  draggedId <> targetId ->
  _todos s = l1 ++ t :: mid ++ d :: post ->
  Forall (fun x => strict_eq_str (id x) targetId = false) l1 ->
  strict_eq_str (id t) targetId = true ->
  Forall (fun x => strict_eq_str (id x) draggedId = false) (l1 ++ t :: mid) ->
  strict_eq_str (id d) draggedId = true ->
  reorderTodos draggedId targetId s
  = (Normal tt, persisted (l1 ++ d :: t :: mid ++ post) (localStorage s)).
Proof.
  intros Hneq Hl Hl1 Ht Hpre Hd.
  unfold reorderTodos.
  apply String.eqb_neq in Hneq. rewrite Hneq.
  unfold bind at 1. unfold get_todos at 1. rewrite Hl.
  rewrite (findIndex_first _ l1 t (mid ++ d :: post) Hl1 Ht).
  replace (l1 ++ t :: mid ++ d :: post) with ((l1 ++ t :: mid) ++ d :: post)
    by (rewrite <- List.app_assoc; reflexivity).
  rewrite (findIndex_first _ (l1 ++ t :: mid) d post Hpre Hd).
  rewrite splice_remove.
  replace (_ =? -1)%Z with false by (symmetry; apply Z.eqb_neq; lia).
  replace (_ =? -1)%Z with false by (symmetry; apply Z.eqb_neq; lia).
  cbn [orb].
  replace (_ <? _)%Z with false
    by (symmetry; apply Z.ltb_ge; rewrite length_app; simpl; lia).
  rewrite <- List.app_assoc. cbn [app].
  rewrite (splice_insert d l1 (t :: mid ++ post)).
  reflexivity.
Qed.

(** The same with the dragged task in front of the target. *)
Lemma reorder_forward (s : State) (draggedId targetId : string)
      (pre : list Todo) (d : Todo) (mid : list Todo) (t : Todo)
      (l2 : list Todo) :
  draggedId <> targetId ->
  _todos s = pre ++ d :: mid ++ t :: l2 ->
  Forall (fun x => strict_eq_str (id x) draggedId = false) pre ->
  strict_eq_str (id d) draggedId = true ->
  Forall (fun x => strict_eq_str (id x) targetId = false) (pre ++ d :: mid) ->
  strict_eq_str (id t) targetId = true ->
  reorderTodos draggedId targetId s
  = (Normal tt, persisted ((pre ++ mid) ++ d :: t :: l2) (localStorage s)).
Proof.
  intros Hneq Hl Hpre Hd Hmid Ht.
  unfold reorderTodos.
  apply String.eqb_neq in Hneq. rewrite Hneq.
  unfold bind at 1. unfold get_todos at 1. rewrite Hl.
  rewrite (findIndex_first _ pre d (mid ++ t :: l2) Hpre Hd).
  replace (pre ++ d :: mid ++ t :: l2) with ((pre ++ d :: mid) ++ t :: l2)
    by (rewrite <- List.app_assoc; reflexivity).
  rewrite (findIndex_first _ (pre ++ d :: mid) t l2 Hmid Ht).
  rewrite <- List.app_assoc. cbn [app].
  rewrite splice_remove.
  replace (_ =? -1)%Z with false by (symmetry; apply Z.eqb_neq; lia).
  replace (_ =? -1)%Z with false by (symmetry; apply Z.eqb_neq; lia).
  cbn [orb].
  replace (_ <? _)%Z with true
    by (symmetry; apply Z.ltb_lt; rewrite length_app; simpl; lia).
  replace (Z.of_nat (List.length (pre ++ d :: mid)) - 1)%Z
    with (Z.of_nat (List.length (pre ++ mid)))
    by (rewrite !length_app; simpl; lia).
  rewrite List.app_assoc.
  rewrite (splice_insert d (pre ++ mid) (t :: l2)).
  reflexivity.
Qed.

(** Both ids present and different: the dragged task [d] is taken out of
    [pre ++ d :: post] and put back in front of the target [t]. *)
Lemma reorder_present (s : State) (draggedId targetId : string) :
  draggedId <> targetId ->
  In (VStr draggedId) (map id (_todos s)) ->
  In (VStr targetId) (map id (_todos s)) ->
  exists pre d post l1 t l2,
    reorderTodos draggedId targetId s
    = (Normal tt, persisted (l1 ++ d :: t :: l2) (localStorage s)) /\
    _todos s = pre ++ d :: post /\
    id d = VStr draggedId /\
    Forall (fun x => id x <> VStr draggedId) pre /\
    pre ++ post = l1 ++ t :: l2 /\
    id t = VStr targetId /\
    Forall (fun x => id x <> VStr targetId) l1.
Proof.
  intros Hneq Hd Ht.
  destruct (present_id _ _ Hd) as (pre & d & post & Hl & Hpre & Hdx).
  assert (Hd_not_t : strict_eq_str (id d) targetId = false).
  { apply strict_eq_str_false. apply strict_eq_str_true in Hdx.
    rewrite Hdx. congruence. }
  destruct (first_passing (fun x => strict_eq_str (id x) targetId) pre)
    as [Hnone | (l1 & t & mid & Epre & Hl1 & Htx)].
  - (* the target comes after the dragged task *)
    assert (Hpost : In (VStr targetId) (map id post)).
    { rewrite Hl, map_app, in_app_iff in Ht. simpl in Ht.
      destruct Ht as [Ht | [Ht | Ht]]; [| | exact Ht].
      - exfalso. apply in_map_iff in Ht. destruct Ht as (x & Ex & Hx).
        rewrite Forall_forall in Hnone. specialize (Hnone x Hx).
        apply strict_eq_str_false in Hnone. congruence.
      - apply strict_eq_str_false in Hd_not_t. congruence. }
    destruct (present_id _ _ Hpost) as (mid & t & l2 & Epost & Hmid & Htx).
    subst post.
    exists pre, d, (mid ++ t :: l2), (pre ++ mid), t, l2.
    split; [|repeat split].
    + apply reorder_forward; auto.
      apply Forall_app. split; [exact Hnone|]. constructor; assumption.
    + exact Hl.
    + apply strict_eq_str_true; exact Hdx.
    + apply Forall_id_differs; exact Hpre.
    + rewrite <- List.app_assoc. reflexivity.
    + apply strict_eq_str_true; exact Htx.
    + apply Forall_id_differs. apply Forall_app. split; assumption.
  - (* the target comes before the dragged task *)
    subst pre.
    assert (Hl' : _todos s = l1 ++ t :: mid ++ d :: post)
      by (rewrite Hl, <- List.app_assoc; reflexivity).
    exists (l1 ++ t :: mid), d, post, l1, t, (mid ++ post).
    split; [|repeat split].
    + apply reorder_backward; auto.
    + exact Hl.
    + apply strict_eq_str_true; exact Hdx.
    + apply Forall_id_differs; exact Hpre.
    + rewrite <- List.app_assoc. reflexivity.
    + apply strict_eq_str_true; exact Htx.
    + apply Forall_id_differs; exact Hl1.
Qed.

End running.

(* ------------------------------------------------------------------------- *)
(** ** Re-ordering and unknown ids *)
(* ------------------------------------------------------------------------- *)

Section reorder_claims.
Context {host : JSONHost}.
Import TodoStore.

(** C1.  When the two ids differ and both occur in the store, [reorderTodos]
    completes and the dragged task [d] (the first task carrying
    [draggedId]) ends up immediately before the target [t] (the first task
    carrying [targetId]); the tasks other than [d], which are [pre ++ post]
    before the call, are in the same order [l1 ++ t :: l2] after it. *)
Theorem reorder_places_dragged_before_target
    (s : State) (draggedId targetId : string) :
  draggedId <> targetId ->
  In (VStr draggedId) (map id (_todos s)) ->
  In (VStr targetId) (map id (_todos s)) ->
  exists s' pre d post l1 t l2,
    reorderTodos draggedId targetId s = (Normal tt, s') /\
    _todos s = pre ++ d :: post /\
    id d = VStr draggedId /\
    Forall (fun x => id x <> VStr draggedId) pre /\
    pre ++ post = l1 ++ t :: l2 /\
    id t = VStr targetId /\
    Forall (fun x => id x <> VStr targetId) l1 /\
    _todos s' = l1 ++ d :: t :: l2.
Proof.
  intros Hneq Hd Ht.
  destruct (reorder_present s _ _ Hneq Hd Ht)
    as (pre & d & post & l1 & t & l2 & Hrun & Hl & Hid & Hpre & Hrest & Hit & Hl1).
  exists (persisted (l1 ++ d :: t :: l2) (localStorage s)),
         pre, d, post, l1, t, l2.
  repeat split; assumption.
Qed.

(** C10, as the code has it.  [reorderTodos] finds a task by its id, and
    that is the first task carrying it.  When the dragged task [d] sits
    immediately before the target [t] and no task in front of the two
    carries the id of either, as is the case when no two tasks share an id,
    [reorderTodos] completes and leaves the order of the tasks as it was. *)
Theorem reorder_onto_successor_keeps_order
    (s : State) (draggedId targetId : string)
    (pre : list Todo) (d t : Todo) (post : list Todo) :
  _todos s = pre ++ d :: t :: post ->
  id d = VStr draggedId ->
  id t = VStr targetId ->
  Forall (fun x => id x <> VStr draggedId /\ id x <> VStr targetId) pre ->
  exists s',
    reorderTodos draggedId targetId s = (Normal tt, s') /\
    _todos s' = _todos s.
Proof.
  intros Hl Hd Ht Hpre.
  destruct (string_dec draggedId targetId) as [-> | Hneq].
  { exists s. split; [apply reorderTodos_same | reflexivity]. }
  exists (persisted ((pre ++ []) ++ d :: t :: post) (localStorage s)).
  split.
  - apply reorder_forward; auto.
    + apply Forall_id_differs. eapply Forall_impl; [|exact Hpre].
      intros x [H1 H2]; assumption.
    + apply strict_eq_str_true; exact Hd.
    + apply Forall_app. split.
      * apply Forall_id_differs. eapply Forall_impl; [|exact Hpre].
        intros x [H1 H2]; assumption.
      * constructor; [|constructor]. apply strict_eq_str_false.
        rewrite Hd. congruence.
    + apply strict_eq_str_true; exact Ht.
  - cbn [persisted _todos]. rewrite Hl, List.app_nil_r. reflexivity.
Qed.

(** C7.  With an id that no task carries, [editTodo], [toggleTodo],
    [deleteTodo] and [reorderTodos] (the id in either place) complete
    normally and leave the whole state, memory and storage, as it was; so
    does [reorderTodos x x] for any [x]. *)
Theorem unknown_id_is_a_no_op (s : State) (missing : string) :
  ~ In (VStr missing) (map id (_todos s)) ->
  (forall newText, editTodo missing newText s = (Normal tt, s)) /\
  toggleTodo missing s = (Normal tt, s) /\
  deleteTodo missing s = (Normal tt, s) /\
  (forall other, reorderTodos missing other s = (Normal tt, s)) /\
  (forall other, reorderTodos other missing s = (Normal tt, s)) /\
  (forall x, reorderTodos x x s = (Normal tt, s)).
Proof.
  intros Habsent. apply absent_id in Habsent.
  split; [|split; [|split; [|split; [|split]]]].
  - intros newText. apply editTodo_absent; exact Habsent.
  - apply toggleTodo_absent; exact Habsent.
  - apply deleteTodo_absent; exact Habsent.
  - intros other. apply reorderTodos_dragged_absent; exact Habsent.
  - intros other. apply reorderTodos_target_absent; exact Habsent.
  - intros x. apply reorderTodos_same.
Qed.

(** C2, as the code has it.  Two tasks are added to a store holding none
    and the first is dragged onto the second: the order is still first,
    second. *)
Theorem drag_first_onto_second_keeps_order
    (storage : string -> option string)
    (now1 : N) (rnd1 text1 : string) (now2 : N) (rnd2 text2 : string) :
  exists s',
    drag_first_onto_second now1 rnd1 text1 now2 rnd2 text2
                           (mkState [] storage) = (Normal tt, s') /\
    _todos s' =
      [new_Todo (VStr (generate_id now1 rnd1)) (VStr text1) VUndefined;
       new_Todo (VStr (generate_id now2 rnd2)) (VStr text2) VUndefined].
Proof.
  unfold drag_first_onto_second.
  erewrite bind_normal by apply addTodo_run.
  erewrite bind_normal by apply addTodo_run.
  cbn [_todos localStorage persisted app].
  match goal with
  | |- exists s', reorderTodos _ _ ?s0 = _ /\ _ => set (st := s0)
  end.
  destruct (string_dec (generate_id now1 rnd1) (generate_id now2 rnd2))
    as [E | Hneq].
  - exists st. split; [|reflexivity].
    rewrite E. apply reorderTodos_same.
  - eexists. split.
    + apply (reorder_forward st _ _ []
               (new_Todo (VStr (generate_id now1 rnd1)) (VStr text1) VUndefined)
               []
               (new_Todo (VStr (generate_id now2 rnd2)) (VStr text2) VUndefined)
               [] Hneq).
      * reflexivity.
      * constructor.
      * simpl. apply String.eqb_refl.
      * constructor; [|constructor]. simpl. apply String.eqb_neq. exact Hneq.
      * simpl. apply String.eqb_refl.
    + reflexivity.
Qed.

End reorder_claims.

(** The three theorems above at the store [a, b, c]: [c] is dragged onto [a];
    [b] is dragged onto [c]; the id [zzz] is unknown. *)
Lemma reorder_places_dragged_before_target_witness :
  exists s' pre d post l1 t l2,
    TodoStore.reorderTodos (host := RefJSON.host) "c" "a" three_tasks
    = (Normal tt, s') /\
    _todos three_tasks = pre ++ d :: post /\
    id d = VStr "c" /\
    Forall (fun x => id x <> VStr "c") pre /\
    pre ++ post = l1 ++ t :: l2 /\
    id t = VStr "a" /\
    Forall (fun x => id x <> VStr "a") l1 /\
    _todos s' = l1 ++ d :: t :: l2.
Proof.
  apply (reorder_places_dragged_before_target (host := RefJSON.host)
           three_tasks "c" "a").
  - discriminate.
  - simpl. tauto.
  - simpl. tauto.
Defined.

Lemma reorder_onto_successor_keeps_order_witness :
  exists s',
    TodoStore.reorderTodos (host := RefJSON.host) "b" "c" three_tasks
    = (Normal tt, s') /\
    _todos s' = _todos three_tasks.
Proof.
  apply (reorder_onto_successor_keeps_order (host := RefJSON.host)
           three_tasks "b" "c" [task_a] task_b task_c []).
  - reflexivity.
  - reflexivity.
  - reflexivity.
  - repeat constructor; discriminate.
Defined.

(** C10 as stated fails on a store where an earlier task shares the
    target's id: in [b; a; b'] the task [a] sits immediately before [b'],
    and dragging it onto the id of [b'] finds the first [b] and moves [a]
    to the front. *)
Lemma reorder_onto_successor_finds_an_earlier_task :
  _todos tasks_sharing_an_id = [task_b] ++ task_a :: task_b_again :: [] /\
  id task_a = VStr "a" /\
  id task_b_again = VStr "b" /\
  forallb typed_task (_todos tasks_sharing_an_id) = true /\
  _todos (snd (TodoStore.reorderTodos (host := RefJSON.host) "a" "b"
                 tasks_sharing_an_id))
  = [task_a; task_b; task_b_again] /\
  _todos (snd (TodoStore.reorderTodos (host := RefJSON.host) "a" "b"
                 tasks_sharing_an_id))
  <> _todos tasks_sharing_an_id.
Proof.
  assert (E : _todos (snd (TodoStore.reorderTodos (host := RefJSON.host)
                             "a" "b" tasks_sharing_an_id))
              = [task_a; task_b; task_b_again])
    by (vm_compute; reflexivity).
  repeat split; try reflexivity; try exact E.
  rewrite E. discriminate.
Qed.

Lemma unknown_id_is_a_no_op_witness :
  (forall newText,
      TodoStore.editTodo (host := RefJSON.host) "zzz" newText three_tasks
      = (Normal tt, three_tasks)) /\
  TodoStore.toggleTodo (host := RefJSON.host) "zzz" three_tasks
  = (Normal tt, three_tasks) /\
  TodoStore.deleteTodo (host := RefJSON.host) "zzz" three_tasks
  = (Normal tt, three_tasks) /\
  (forall other,
      TodoStore.reorderTodos (host := RefJSON.host) "zzz" other three_tasks
      = (Normal tt, three_tasks)) /\
  (forall other,
      TodoStore.reorderTodos (host := RefJSON.host) other "zzz" three_tasks
      = (Normal tt, three_tasks)) /\
  (forall x,
      TodoStore.reorderTodos (host := RefJSON.host) x x three_tasks
      = (Normal tt, three_tasks)).
Proof.
  apply (unknown_id_is_a_no_op (host := RefJSON.host) three_tasks "zzz").
  simpl. intros [H | [H | [H | []]]]; discriminate H.
Defined.

(** C2 as the spec words it fails: milk is added, then dog, and milk is
    dragged onto dog; the texts in order are still milk, dog, not dog, milk. *)
Lemma milk_onto_dog_is_not_a_swap :
  map text
      (_todos (snd (drag_first_onto_second (host := RefJSON.host)
                      1700000000000 "0.4fzyo82mvyr" "buy milk"
                      1700000004000 "0.k2j91xq7c" "walk dog"
                      fresh_session)))
  = [VStr "buy milk"; VStr "walk dog"] /\
  map text
      (_todos (snd (drag_first_onto_second (host := RefJSON.host)
                      1700000000000 "0.4fzyo82mvyr" "buy milk"
                      1700000004000 "0.k2j91xq7c" "walk dog"
                      fresh_session)))
  <> [VStr "walk dog"; VStr "buy milk"].
Proof.
  assert (E : map text
      (_todos (snd (drag_first_onto_second (host := RefJSON.host)
                      1700000000000 "0.4fzyo82mvyr" "buy milk"
                      1700000004000 "0.k2j91xq7c" "walk dog"
                      fresh_session)))
    = [VStr "buy milk"; VStr "walk dog"]) by (vm_compute; reflexivity).
  split; [exact E|]. rewrite E. discriminate.
Qed.

(* ------------------------------------------------------------------------- *)
(** ** Filtering *)
(* ------------------------------------------------------------------------- *)

Section filter_claims.
Context {host : JSONHost}.
Import TodoStore.

Lemma boolean_falsy (l : list Todo) :
  Forall (fun t => is_boolean (completed t) = true) l ->
  filter (fun t => negb (ToBoolean (completed t))) l
  = filter (completed_is false) l.
Proof.
  induction 1 as [|t l Ht _ IH]; simpl; [reflexivity|].
  unfold completed_is at 1. rewrite IH.
  destruct (completed t) as [| |[]| | | |]; try discriminate; reflexivity.
Qed.

Lemma boolean_truthy (l : list Todo) :
  Forall (fun t => is_boolean (completed t) = true) l ->
  filter (fun t => ToBoolean (completed t)) l
  = filter (completed_is true) l.
Proof.
  induction 1 as [|t l Ht _ IH]; simpl; [reflexivity|].
  unfold completed_is at 1. rewrite IH.
  destruct (completed t) as [| |[]| | | |]; try discriminate; reflexivity.
Qed.

(** C3.  On a store whose tasks have a boolean [completed],
    [filterTodos "active"] returns the tasks with [completed === false] and
    [filterTodos "completed"] those with [completed === true], each in the
    order they have in the store ([filter] keeps it); every other mode
    string, ["all"] among them, returns all the tasks in order.  The state
    after the call is the state before it. *)
Theorem filterTodos_selects_by_completed (s : State) :
  Forall (fun t => is_boolean (completed t) = true) (_todos s) ->
  filterTodos "active" s
  = (Normal (filter (completed_is false) (_todos s)), s) /\
  filterTodos "completed" s
  = (Normal (filter (completed_is true) (_todos s)), s) /\
  filterTodos "all" s = (Normal (_todos s), s) /\
  (forall mode, mode <> "active" -> mode <> "completed" ->
                filterTodos mode s = (Normal (_todos s), s)).
Proof.
  intros Hbool. unfold filterTodos, bind, get_todos, ret.
  split; [|split; [|split]].
  - simpl. rewrite (boolean_falsy _ Hbool). reflexivity.
  - simpl. rewrite (boolean_truthy _ Hbool). reflexivity.
  - reflexivity.
  - intros mode Ha Hc.
    apply String.eqb_neq in Ha. apply String.eqb_neq in Hc.
    rewrite Ha, Hc. reflexivity.
Qed.

(** Whatever sits in [completed], the two filters split the tasks by
    truthiness. *)
Lemma filterTodos_by_truthiness (s : State) :
  filterTodos "active" s
  = (Normal (filter (fun t => negb (ToBoolean (completed t))) (_todos s)), s)
  /\
  filterTodos "completed" s
  = (Normal (filter (fun t => ToBoolean (completed t)) (_todos s)), s).
Proof. split; reflexivity. Qed.

End filter_claims.

Lemma filterTodos_selects_by_completed_witness :
  TodoStore.filterTodos "active" three_tasks
  = (Normal [task_a; task_c], three_tasks) /\
  TodoStore.filterTodos "completed" three_tasks
  = (Normal [task_b], three_tasks) /\
  TodoStore.filterTodos "all" three_tasks
  = (Normal [task_a; task_b; task_c], three_tasks) /\
  (forall mode, mode <> "active" -> mode <> "completed" ->
                TodoStore.filterTodos mode three_tasks
                = (Normal [task_a; task_b; task_c], three_tasks)).
Proof.
  apply (filterTodos_selects_by_completed three_tasks).
  repeat constructor.
Defined.

(* ------------------------------------------------------------------------- *)
(** ** Writing through to storage *)
(* ------------------------------------------------------------------------- *)

Section write_through.
Context {host : JSONHost}.
Import TodoStore.

(** C4, as the code has it.  Every mutating call completes.  [addTodo] and
    [clearCompleted] always, and the other four when they find what they
    name, leave in storage exactly the serialization of the tasks then in
    memory; a call that finds nothing to do leaves memory and storage
    untouched.  So storage that reflected the tasks before a call reflects
    them after it. *)
Theorem mutation_writes_through (o : operation) (s : State) :
  exists s',
    perform o s = (Normal tt, s') /\
    (takes_effect o (_todos s) = true -> in_sync s') /\
    (takes_effect o (_todos s) = false -> s' = s) /\
    (in_sync s -> in_sync s').
Proof.
  assert (H : exists s',
             perform o s = (Normal tt, s') /\
             (takes_effect o (_todos s) = true -> in_sync s') /\
             (takes_effect o (_todos s) = false -> s' = s)).
  {
    destruct o as [now rnd36 text' | i newText | i | i | | d t];
      cbn [perform takes_effect].
    - eexists. split; [|split].
      + erewrite bind_normal by apply addTodo_run. reflexivity.
      + intros _. apply persisted_in_sync.
      + discriminate.
    - destruct (has_id i (_todos s)) eqn:Hi.
      + destruct (present_id _ _ (has_id_true _ _ Hi))
          as (pre & x & post & Hl & Hpre & Hx).
        eexists. split; [|split].
        * apply (editTodo_found s i newText pre x post Hl Hpre Hx).
        * intros _. apply persisted_in_sync.
        * discriminate.
      + exists s. split; [|split]; try discriminate; try reflexivity.
        apply editTodo_absent, has_id_false, Hi.
    - destruct (has_id i (_todos s)) eqn:Hi.
      + destruct (present_id _ _ (has_id_true _ _ Hi))
          as (pre & x & post & Hl & Hpre & Hx).
        eexists. split; [|split].
        * apply (toggleTodo_found s i pre x post Hl Hpre Hx).
        * intros _. apply persisted_in_sync.
        * discriminate.
      + exists s. split; [|split]; try discriminate; try reflexivity.
        apply toggleTodo_absent, has_id_false, Hi.
    - destruct (has_id i (_todos s)) eqn:Hi.
      + destruct (present_id _ _ (has_id_true _ _ Hi))
          as (pre & x & post & Hl & Hpre & Hx).
        eexists. split; [|split].
        * apply (deleteTodo_found s i pre x post Hl Hpre Hx).
        * intros _. apply persisted_in_sync.
        * discriminate.
      + exists s. split; [|split]; try discriminate; try reflexivity.
        apply deleteTodo_absent, has_id_false, Hi.
    - eexists. split; [|split].
      + apply clearCompleted_run.
      + intros _. apply persisted_in_sync.
      + discriminate.
    - destruct (string_dec d t) as [-> | Hneq].
      { exists s. rewrite String.eqb_refl. split; [|split].
        - apply reorderTodos_same.
        - discriminate.
        - reflexivity. }
      apply String.eqb_neq in Hneq. rewrite Hneq. cbn [negb andb].
      apply String.eqb_neq in Hneq.
      destruct (has_id d (_todos s)) eqn:Hd; cbn [andb].
      + destruct (has_id t (_todos s)) eqn:Ht.
        * destruct (reorder_present s _ _ Hneq (has_id_true _ _ Hd)
                                    (has_id_true _ _ Ht))
            as (pre & x & post & l1 & y & l2 & Hrun & _).
          eexists. split; [exact Hrun|split].
          -- intros _. apply persisted_in_sync.
          -- discriminate.
        * exists s. split; [|split]; try discriminate; try reflexivity.
          apply reorderTodos_target_absent, has_id_false, Ht.
      + exists s. split; [|split]; try discriminate; try reflexivity.
        apply reorderTodos_dragged_absent, has_id_false, Hd. }
  destruct H as (s' & Hrun & Hyes & Hno). exists s'.
  repeat split; try assumption.
  intros Hs. destruct (takes_effect o (_todos s)).
  - apply Hyes. reflexivity.
  - rewrite (Hno eq_refl). exact Hs.
Qed.

Lemma forallb_around {A} (P : A -> bool) (pre : list A) (x : A)
      (post : list A) :
  forallb P (pre ++ x :: post) = true <->
  forallb P pre = true /\ P x = true /\ forallb P post = true.
Proof.
  rewrite forallb_app. cbn [forallb]. rewrite !andb_true_iff. tauto.
Qed.

Lemma typed_setText (newText : string) (x : Todo) :
  typed_task x = true -> typed_task (setText (VStr newText) x) = true.
Proof.
  unfold typed_task. cbn [setText id text completed is_string].
  destruct (is_string (id x)); [|discriminate].
  destruct (is_string (text x)); [|discriminate]. tauto.
Qed.

Lemma typed_toggle (x : Todo) :
  typed_task x = true -> typed_task (toggle x) = true.
Proof.
  unfold typed_task. cbn [toggle id text completed is_boolean].
  destruct (is_string (id x)); [|discriminate].
  destruct (is_string (text x)); [|discriminate]. reflexivity.
Qed.

(** The mutating calls make and keep typed tasks: a store whose tasks have
    string ids and texts and a boolean [completed] stays such a store. *)
Lemma typed_tasks_preserved (o : operation) (s : State) :
  forallb typed_task (_todos s) = true ->
  forallb typed_task (_todos (snd (perform o s))) = true.
Proof.
  intros Ht.
  destruct o as [now rnd36 text' | i newText | i | i | | d t];
    cbn [perform].
  - erewrite bind_normal by apply addTodo_run.
    cbn [ret snd persisted _todos]. rewrite forallb_app, Ht. reflexivity.
  - destruct (has_id i (_todos s)) eqn:Hi.
    + destruct (present_id _ _ (has_id_true _ _ Hi))
        as (pre & x & post & Hl & Hpre & Hx).
      rewrite (editTodo_found s i newText pre x post Hl Hpre Hx).
      cbn [snd persisted _todos]. rewrite Hl in Ht.
      apply forallb_around in Ht. destruct Ht as (Hp & Hxt & Hq).
      apply forallb_around. auto using typed_setText.
    + rewrite editTodo_absent by (apply has_id_false, Hi). exact Ht.
  - destruct (has_id i (_todos s)) eqn:Hi.
    + destruct (present_id _ _ (has_id_true _ _ Hi))
        as (pre & x & post & Hl & Hpre & Hx).
      rewrite (toggleTodo_found s i pre x post Hl Hpre Hx).
      cbn [snd persisted _todos]. rewrite Hl in Ht.
      apply forallb_around in Ht. destruct Ht as (Hp & Hxt & Hq).
      apply forallb_around. auto using typed_toggle.
    + rewrite toggleTodo_absent by (apply has_id_false, Hi). exact Ht.
  - destruct (has_id i (_todos s)) eqn:Hi.
    + destruct (present_id _ _ (has_id_true _ _ Hi))
        as (pre & x & post & Hl & Hpre & Hx).
      rewrite (deleteTodo_found s i pre x post Hl Hpre Hx).
      cbn [snd persisted _todos]. rewrite Hl in Ht.
      apply forallb_around in Ht. destruct Ht as (Hp & Hxt & Hq).
      rewrite forallb_app, Hp, Hq. reflexivity.
    + rewrite deleteTodo_absent by (apply has_id_false, Hi). exact Ht.
  - rewrite clearCompleted_run. cbn [snd persisted _todos].
    apply forallb_forall. intros x Hx. apply filter_In in Hx.
    rewrite forallb_forall in Ht. apply Ht. tauto.
  - destruct (string_dec d t) as [-> | Hneq];
      [rewrite reorderTodos_same; exact Ht|].
    destruct (has_id d (_todos s)) eqn:Hd;
      [|rewrite reorderTodos_dragged_absent by (apply has_id_false, Hd);
        exact Ht].
    destruct (has_id t (_todos s)) eqn:Htg;
      [|rewrite reorderTodos_target_absent by (apply has_id_false, Htg);
        exact Ht].
    destruct (reorder_present s _ _ Hneq (has_id_true _ _ Hd)
                              (has_id_true _ _ Htg))
      as (pre & x & post & l1 & y & l2 & Hrun & Hl & _ & _ & Hrest & _).
    rewrite Hrun. cbn [snd persisted _todos].
    rewrite Hl in Ht. apply forallb_around in Ht.
    destruct Ht as (Hp & Hxt & Hq).
    assert (Hrest' : forallb typed_task (l1 ++ y :: l2) = true)
      by (rewrite <- Hrest, forallb_app, Hp, Hq; reflexivity).
    apply forallb_around in Hrest'. destruct Hrest' as (H1 & Hy & H2).
    apply forallb_around. repeat split; try assumption.
    cbn [forallb]. rewrite Hy, H2. reflexivity.
Qed.

End write_through.

(** C4 as stated fails where a call finds nothing to do: a session with
    nothing stored is loaded and an unknown id is toggled; storage stays
    empty, which is not the serialization of the (empty) task list. *)
Lemma toggle_unknown_writes_nothing :
  snd ((TodoStore.loadFromStorage (host := RefJSON.host) ;;
        perform (host := RefJSON.host) (Toggle "nobody")) fresh_session)
  = fresh_session /\
  ~ in_sync (host := RefJSON.host)
      (snd ((TodoStore.loadFromStorage (host := RefJSON.host) ;;
             perform (host := RefJSON.host) (Toggle "nobody")) fresh_session)).
Proof.
  split; [reflexivity|]. unfold in_sync. cbn. discriminate.
Qed.

(* ------------------------------------------------------------------------- *)
(** ** Adding *)
(* ------------------------------------------------------------------------- *)

Section adding.
Context {host : JSONHost}.
Import TodoStore.

(** C8, as the code has it.  [addTodo] completes and appends one task; its
    text is the argument as given, its [completed] is [false] and its id
    the generated one.  The store does not look at the text: the task's
    text is empty exactly when the argument is. *)
Theorem addTodo_appends_the_text_given
    (now : N) (rnd36 text' : string) (s : State) :
  exists todo s',
    addTodo now rnd36 text' s = (Normal todo, s') /\
    _todos s' = _todos s ++ [todo] /\
    id todo = VStr (generate_id now rnd36) /\
    text todo = VStr text' /\
    completed todo = VBool false /\
    (text todo = VStr EmptyString <-> text' = EmptyString).
Proof.
  eexists. eexists. split; [apply addTodo_run|].
  cbn [persisted _todos new_Todo id text completed].
  repeat split; congruence.
Qed.

Lemma add_all_run (calls : list (N * string * string)) (s : State) :
  exists s',
    add_all calls s = (Normal tt, s') /\
    _todos s' = _todos s ++ map task_of_call calls.
Proof.
  revert s. induction calls as [|[[now rnd36] text'] calls IH]; intros s.
  - exists s. split; [reflexivity|]. simpl. rewrite List.app_nil_r. reflexivity.
  - cbn [add_all]. erewrite bind_normal by apply addTodo_run.
    destruct (IH (persisted
                    (_todos s ++
                     [new_Todo (VStr (generate_id now rnd36)) (VStr text')
                               VUndefined])
                    (localStorage s))) as (s' & Hrun & Hs').
    exists s'. split; [exact Hrun|].
    rewrite Hs'. cbn [persisted _todos map]. rewrite <- List.app_assoc.
    reflexivity.
Qed.

Lemma append_same_length (a b c d : string) :
  (a ++ b)%string = (c ++ d)%string ->
  String.length a = String.length c ->
  a = c /\ b = d.
Proof.
  revert c. induction a as [|x a IH]; intros [|y c]; simpl;
    intros E L; try discriminate.
  - split; [reflexivity | exact E].
  - injection E as -> E. injection L as L.
    destruct (IH c E L) as [-> ->]. split; reflexivity.
Qed.

Lemma stamp_inj (n n' : N) : stamp n = stamp n' -> n = n'.
Proof.
  unfold stamp. intros E. apply Unsigned.to_uint_inj.
  assert (H : NilEmpty.uint_of_string (NilEmpty.string_of_uint (N.to_uint n))
              = NilEmpty.uint_of_string
                  (NilEmpty.string_of_uint (N.to_uint n')))
    by (rewrite E; reflexivity).
  rewrite !NilEmpty.usu in H. congruence.
Qed.

(** Two generated ids with time stamps of one width are equal only if the
    clock readings and the random suffixes both are. *)
Lemma generate_id_inj (n n' : N) (r r' : string) :
  String.length (stamp n) = String.length (stamp n') ->
  generate_id n r = generate_id n' r' ->
  n = n' /\ suffix r = suffix r'.
Proof.
  intros L E. destruct (append_same_length _ _ _ _ E L) as [En Er].
  split; [apply stamp_inj; exact En | exact Er].
Qed.

Lemma NoDup_map_through {A B C} (f : A -> B) (g : A -> C) (l : list A) :
  (forall x y, In x l -> In y l -> f x = f y -> g x = g y) ->
  NoDup (map g l) -> NoDup (map f l).
Proof.
  induction l as [|a l IH]; simpl; intros Hfg Hg.
  - constructor.
  - inversion Hg as [|? ? Hnotin Hrest]; subst. constructor.
    + intros Hin. apply Hnotin. apply in_map_iff in Hin.
      destruct Hin as (y & Ey & Hy). apply in_map_iff. exists y.
      split; [|exact Hy]. apply Hfg; auto.
    + apply IH; auto.
Qed.

(** C9, as the code has it.  [addTodo] does not compare ids; it builds each
    from the clock and a random string.  In a run of calls on a store with
    no tasks, where the time stamps have one width and no two calls draw
    both the same clock reading and the same random suffix, the ids of the
    resulting tasks are pairwise distinct. *)
Theorem distinct_draws_give_distinct_ids
    (calls : list (N * string * string))
    (storage : string -> option string) (width : nat) :
  Forall (fun c => String.length (stamp (fst (fst c))) = width) calls ->
  NoDup (map (fun c => (fst (fst c), suffix (snd (fst c)))) calls) ->
  exists s',
    add_all calls (mkState [] storage) = (Normal tt, s') /\
    List.length (_todos s') = List.length calls /\
    NoDup (map id (_todos s')).
Proof.
  intros Hwidth Hdraws.
  destruct (add_all_run calls (mkState [] storage)) as (s' & Hrun & Hs').
  exists s'. split; [exact Hrun|]. rewrite Hs'. cbn [_todos app].
  split; [apply length_map|].
  rewrite map_map.
  apply (NoDup_map_through _
           (fun c => (fst (fst c), suffix (snd (fst c))))); [|exact Hdraws].
  intros x y Hx Hy E. rewrite Forall_forall in Hwidth.
  cbn [task_of_call new_Todo id] in E. injection E as E.
  destruct (generate_id_inj (fst (fst x)) (fst (fst y))
                            (snd (fst x)) (snd (fst y))) as [-> ->].
  - rewrite (Hwidth x Hx), (Hwidth y Hy). reflexivity.
  - exact E.
  - reflexivity.
Qed.

End adding.

(** C8 as stated fails: the store accepts the empty text. *)
Lemma addTodo_accepts_empty_text :
  exists todo s',
    TodoStore.addTodo (host := RefJSON.host) 1700000000000 "0.4fzyo82mvyr"
                      EmptyString fresh_session
    = (Normal todo, s') /\
    _todos s' = [todo] /\
    text todo = VStr EmptyString.
Proof.
  eexists. eexists. split; [apply addTodo_run|]. split; reflexivity.
Qed.

(** C9 as stated fails: two calls that read the same clock and draw the
    same random string give the two tasks one id. *)
Lemma same_draw_gives_same_id :
  map id (_todos (snd (add_all (host := RefJSON.host)
                         [(1700000000000%N, "0.4fzyo82mvyr", "buy milk");
                          (1700000000000%N, "0.4fzyo82mvyr", "walk dog")]
                         fresh_session)))
  = [VStr "17000000000004fzyo"; VStr "17000000000004fzyo"] /\
  ~ NoDup (map id (_todos (snd (add_all (host := RefJSON.host)
                         [(1700000000000%N, "0.4fzyo82mvyr", "buy milk");
                          (1700000000000%N, "0.4fzyo82mvyr", "walk dog")]
                         fresh_session)))).
Proof.
  assert (E : map id (_todos (snd (add_all (host := RefJSON.host)
                         [(1700000000000%N, "0.4fzyo82mvyr", "buy milk");
                          (1700000000000%N, "0.4fzyo82mvyr", "walk dog")]
                         fresh_session)))
              = [VStr "17000000000004fzyo"; VStr "17000000000004fzyo"])
    by (vm_compute; reflexivity).
  split; [exact E|]. rewrite E. intros H.
  inversion H as [|? ? Hnotin _]; subst. apply Hnotin. left. reflexivity.
Qed.

Lemma distinct_draws_give_distinct_ids_witness :
  exists s',
    add_all (host := RefJSON.host)
            [(1700000000000%N, "0.4fzyo82mvyr", "buy milk");
             (1700000000000%N, "0.k2j91xq7c", "walk dog");
             (1700000004000%N, "0.4fzyo82mvyr", "call mum")]
            (mkState [] (fun _ => None))
    = (Normal tt, s') /\
    List.length (_todos s') = 3%nat /\
    NoDup (map id (_todos s')).
Proof.
  apply (distinct_draws_give_distinct_ids (host := RefJSON.host)
           [(1700000000000%N, "0.4fzyo82mvyr", "buy milk");
            (1700000000000%N, "0.k2j91xq7c", "walk dog");
            (1700000004000%N, "0.4fzyo82mvyr", "call mum")]
           (fun _ => None) 13).
  - repeat constructor.
  - repeat constructor; simpl; intuition discriminate.
Defined.

(* ------------------------------------------------------------------------- *)
(** ** Loading *)
(* ------------------------------------------------------------------------- *)

Section loading.
Context {host : JSONHost}.
Import TodoStore.

Lemma read_item_nullish (item : value) (s : State) :
  is_nullish item = true -> read_item item s = (Throw TypeError, s).
Proof. destruct item; try discriminate; reflexivity. Qed.

Lemma read_item_other (item : value) (s : State) :
  is_nullish item = false -> read_item item s = (Normal (rehydrate item), s).
Proof. destruct item; try discriminate; reflexivity. Qed.

Lemma map_items_nullish (l : list value) (s : State) :
  existsb is_nullish l = true -> mapM read_item l s = (Throw TypeError, s).
Proof.
  induction l as [|x l IH]; simpl; [discriminate|].
  intros H. unfold bind. destruct (is_nullish x) eqn:Hx.
  - rewrite (read_item_nullish _ _ Hx). reflexivity.
  - rewrite (read_item_other _ _ Hx). simpl in H. rewrite (IH H). reflexivity.
Qed.

Lemma map_items_other (l : list value) (s : State) :
  existsb is_nullish l = false ->
  mapM read_item l s = (Normal (map rehydrate l), s).
Proof.
  induction l as [|x l IH]; simpl; [reflexivity|].
  intros H. apply orb_false_iff in H. destruct H as [Hx Hl].
  unfold bind. rewrite (read_item_other _ _ Hx), (IH Hl). reflexivity.
Qed.

(** What [loadFromStorage] leaves in memory, case by case on the stored
    value; storage itself is not written. *)
Lemma loadFromStorage_absent (s : State) :
  localStorage s _storageKey = None ->
  loadFromStorage s = (Normal tt, mkState [] (localStorage s)).
Proof.
  intros H. unfold loadFromStorage, bind, getItem. rewrite H. reflexivity.
Qed.

Lemma loadFromStorage_empty (s : State) :
  localStorage s _storageKey = Some EmptyString ->
  loadFromStorage s = (Normal tt, mkState [] (localStorage s)).
Proof.
  intros H. unfold loadFromStorage, bind, getItem. rewrite H. reflexivity.
Qed.

Lemma loadFromStorage_unparsable (s : State) (raw : string) :
  localStorage s _storageKey = Some raw ->
  JSON_parse raw = None ->
  loadFromStorage s = (Normal tt, mkState [] (localStorage s)).
Proof.
  intros H Hp. unfold loadFromStorage, bind, getItem. rewrite H.
  destruct (raw =? EmptyString)%string; [reflexivity|]. cbn [negb].
  unfold try_catch. rewrite Hp. reflexivity.
Qed.

Lemma loadFromStorage_not_array (s : State) (raw : string) (v : value) :
  localStorage s _storageKey = Some raw ->
  JSON_parse raw = Some v ->
  (forall l, v <> VArr l) ->
  loadFromStorage s = (Normal tt, mkState [] (localStorage s)).
Proof.
  intros H Hp Hv. unfold loadFromStorage, bind, getItem. rewrite H.
  destruct (raw =? EmptyString)%string; [reflexivity|]. cbn [negb].
  unfold try_catch. rewrite Hp.
  destruct v; try reflexivity. exfalso. eapply Hv. reflexivity.
Qed.

Lemma loadFromStorage_array (s : State) (raw : string) (l : list value) :
  localStorage s _storageKey = Some raw ->
  JSON_parse raw = Some (VArr l) ->
  loadFromStorage s
  = (Normal tt,
     mkState (if (raw =? EmptyString)%string || existsb is_nullish l
              then [] else map rehydrate l)
             (localStorage s)).
Proof.
  intros H Hp. unfold loadFromStorage, bind, getItem. rewrite H.
  destruct (raw =? EmptyString)%string; [reflexivity|]. cbn [negb orb].
  unfold try_catch. rewrite Hp. cbn [ret array_map].
  change (mapM _ l) with (mapM read_item l).
  destruct (existsb is_nullish l) eqn:Hn.
  - rewrite (map_items_nullish _ _ Hn). reflexivity.
  - rewrite (map_items_other _ _ Hn). reflexivity.
Qed.

Lemma not_nullish (l : list value) :
  ~ In VNull l -> ~ In VUndefined l -> existsb is_nullish l = false.
Proof.
  intros Hn Hu. destruct (existsb is_nullish l) eqn:E; [|reflexivity].
  exfalso. apply existsb_exists in E. destruct E as (x & Hx & Hnull).
  destruct x; try discriminate; auto.
Qed.

(** C6, as the code has it.  [loadFromStorage] always completes normally
    and does not write to storage.  It leaves no tasks in memory when the
    key is absent, when the value is the empty string, when the value is
    not JSON, when it is JSON but not an array, and when it is an array
    with a [null] in it.  Any other array is taken element by element,
    whatever the elements are: each gives one task, built from whatever
    the element has under [id], [text] and [completed]. *)
Theorem loadFromStorage_recovers (s : State) :
  exists s',
    loadFromStorage s = (Normal tt, s') /\
    localStorage s' = localStorage s /\
    (localStorage s _storageKey = None -> _todos s' = []) /\
    (localStorage s _storageKey = Some EmptyString -> _todos s' = []) /\
    (forall raw,
        localStorage s _storageKey = Some raw ->
        JSON_parse raw = None -> _todos s' = []) /\
    (forall raw v,
        localStorage s _storageKey = Some raw ->
        JSON_parse raw = Some v ->
        (forall l, v <> VArr l) -> _todos s' = []) /\
    (forall raw l,
        localStorage s _storageKey = Some raw ->
        JSON_parse raw = Some (VArr l) ->
        In VNull l -> _todos s' = []) /\
    (forall raw l,
        localStorage s _storageKey = Some raw ->
        raw <> EmptyString ->
        JSON_parse raw = Some (VArr l) ->
        ~ In VNull l -> ~ In VUndefined l ->
        _todos s' = map rehydrate l).
Proof.
  assert (Hrun : exists l,
             loadFromStorage s = (Normal tt, mkState l (localStorage s))).
  { destruct (localStorage s _storageKey) as [raw|] eqn:Hslot.
    - destruct (JSON_parse raw) as [v|] eqn:Hp.
      + destruct v;
          try (eexists; eapply loadFromStorage_not_array;
               [exact Hslot | exact Hp | intros l; discriminate]).
        eexists. eapply loadFromStorage_array; [exact Hslot | exact Hp].
      + eexists. eapply loadFromStorage_unparsable; eassumption.
    - eexists. apply loadFromStorage_absent. exact Hslot. }
  destruct Hrun as (l & Hrun). exists (mkState l (localStorage s)).
  split; [exact Hrun|]. split; [reflexivity|]. cbn [_todos].
  repeat split.
  - intros H. rewrite (loadFromStorage_absent _ H) in Hrun. congruence.
  - intros H. rewrite (loadFromStorage_empty _ H) in Hrun. congruence.
  - intros raw H Hp.
    rewrite (loadFromStorage_unparsable _ _ H Hp) in Hrun. congruence.
  - intros raw v H Hp Hv.
    rewrite (loadFromStorage_not_array _ _ _ H Hp Hv) in Hrun. congruence.
  - intros raw elems H Hp Hnull.
    rewrite (loadFromStorage_array _ _ _ H Hp) in Hrun.
    assert (E : existsb is_nullish elems = true)
      by (apply existsb_exists; exists VNull; split; [exact Hnull|reflexivity]).
    rewrite E, orb_true_r in Hrun. congruence.
  - intros raw elems H Hraw Hp Hnull Hundef.
    rewrite (loadFromStorage_array _ _ _ H Hp) in Hrun.
    apply String.eqb_neq in Hraw.
    rewrite Hraw, (not_nullish _ Hnull Hundef) in Hrun. cbn [orb] in Hrun.
    congruence.
Qed.

Lemma typed_is_storable (t : Todo) :
  typed_task t = true -> storable_task t = true.
Proof.
  destruct t as [i t c]. unfold typed_task, storable_task.
  cbn [id text completed].
  destruct i; try discriminate. destruct t; try discriminate.
  destruct c; try discriminate. reflexivity.
Qed.

(** Writing storable tasks out and reading the objects back gives the
    tasks. *)
Lemma rehydrate_plain_objects (l : list Todo) :
  forallb storable_task l = true ->
  exists elems,
    plain_objects l = VArr elems /\
    existsb is_nullish elems = false /\
    map rehydrate elems = l /\
    json_plain (plain_objects l) = true.
Proof.
  intros Ht. eexists. split; [reflexivity|].
  induction l as [|t l IH]; [repeat split; reflexivity|].
  cbn [forallb] in Ht. apply andb_true_iff in Ht. destruct Ht as [Htt Hl].
  destruct (IH Hl) as (Hn & Hm & Hp).
  destruct t as [i t c]. unfold storable_task in Htt.
  cbn [id text completed] in Htt.
  apply andb_true_iff in Htt. destruct Htt as [Htt Hc].
  apply andb_true_iff in Htt. destruct Htt as [Hi Ht].
  cbn [map existsb is_nullish orb]. rewrite Hn, Hm.
  split; [reflexivity|]. split.
  - f_equal. unfold rehydrate. cbn [own_or_undefined lookup id text completed].
    cbn. unfold new_Todo. destruct c; try discriminate; reflexivity.
  - cbn [json_plain plain_objects map forallb] in Hp |- *.
    cbn [id text completed snd fst]. rewrite Hi, Ht, Hc, Hp. reflexivity.
Qed.

(** C5.  On a runtime whose JSON reads back what it writes, and for a
    store whose tasks hold JSON data in their fields (strings and a boolean,
    for the tasks the store makes): after [saveToStorage], [loadFromStorage]
    run in any session that sees the same storage (a fresh one in
    particular) completes and leaves in memory the very tasks that were
    saved: same ids, texts and completed flags, in the same order. *)
Theorem save_then_load_round_trip
    (laws : JSONLaws host) (s other : State) :
  forallb storable_task (_todos s) = true ->
  localStorage other = localStorage (snd (saveToStorage s)) ->
  exists s',
    loadFromStorage other = (Normal tt, s') /\
    _todos s' = _todos s.
Proof.
  intros Hstorable Hsame.
  destruct (rehydrate_plain_objects _ Hstorable)
    as (elems & He & Hn & Hm & Hp).
  assert (Hslot : localStorage other _storageKey
                  = Some (JSON_stringify (plain_objects (_todos s))))
    by (rewrite Hsame; reflexivity).
  assert (Hparse : JSON_parse (JSON_stringify (plain_objects (_todos s)))
                   = Some (VArr elems))
    by (rewrite parse_stringify by exact Hp; rewrite He; reflexivity).
  assert (Hraw : (JSON_stringify (plain_objects (_todos s)) =? EmptyString)%string
                 = false).
  { apply String.eqb_neq. intros E. rewrite E, parse_empty in Hparse.
    discriminate. }
  eexists. split.
  - apply (loadFromStorage_array other _ elems Hslot Hparse).
  - cbn [_todos]. rewrite Hraw, Hn. cbn [orb]. exact Hm.
Qed.

End loading.

(* ------------------------------------------------------------------------- *)
(** ** The reference runtime reads back what it writes *)
(* ------------------------------------------------------------------------- *)

Module RefJSONFacts.
Import RefJSON.
Local Open Scope char_scope.

(** One written character, escaped or not, is read as that character. *)
Lemma parse_escape_char (c : ascii) (rest : chars) :
  parse_string_body (escape_char c ++ rest) = push c (parse_string_body rest).
Proof.
  destruct c as [[] [] [] [] [] [] [] []]; reflexivity.
Qed.

Lemma parse_escaped (s : string) (rest : chars) :
  parse_string_body
    (flat_map escape_char (list_ascii_of_string s) ++ quote_mark :: rest)
  = Some (s, rest).
Proof.
  induction s as [|c s IH]; [reflexivity|].
  cbn [list_ascii_of_string flat_map]. rewrite <- List.app_assoc.
  rewrite parse_escape_char, IH. reflexivity.
Qed.

Lemma quote_app (s : string) (rest : chars) :
  quote s ++ rest
  = quote_mark ::
    flat_map escape_char (list_ascii_of_string s) ++ quote_mark :: rest.
Proof. unfold quote. cbn [app]. rewrite <- List.app_assoc. reflexivity. Qed.


Lemma skip_ws_start (c : ascii) (tl : chars) :
  is_ws c = false -> skip_ws (c :: tl) = c :: tl.
Proof. intros H. cbn [skip_ws]. rewrite H. reflexivity. Qed.

Lemma value_start_cases (c : ascii) :
  value_start c = true ->
  c = "n" \/ c = "t" \/ c = "f" \/ c = quote_mark \/ c = "[" \/ c = "{".
Proof.
  unfold value_start. rewrite !orb_true_iff, !Ascii.eqb_eq. tauto.
Qed.

Lemma value_start_not_ws (c : ascii) : value_start c = true -> is_ws c = false.
Proof.
  intros H.
  destruct (value_start_cases _ H) as [-> | [-> | [-> | [-> | [-> | ->]]]]];
    reflexivity.
Qed.

Lemma value_start_not_closing (c : ascii) :
  value_start c = true -> ("]" =? c) = false /\ ("}" =? c) = false.
Proof.
  intros H.
  destruct (value_start_cases _ H) as [-> | [-> | [-> | [-> | [-> | ->]]]]];
    split; reflexivity.
Qed.

(** A written value begins with one of those characters. *)
Lemma print_start (v : value) :
  json_plain v = true ->
  exists c tl, print v = c :: tl /\ value_start c = true.
Proof.
  destruct v as [| |b| |s|l|ps]; try discriminate; intros _.
  - eexists. eexists. split; reflexivity.
  - destruct b; eexists; eexists; split; reflexivity.
  - eexists. eexists. split; reflexivity.
  - eexists. eexists. split; reflexivity.
  - eexists. eexists. split; reflexivity.
Qed.

(** One step of each of the three readers. *)
Lemma parse_value_quote (f : nat) (tl : chars) :
  parse_value (S f) (quote_mark :: tl)
  = match parse_string_body tl with
    | Some (str, r1) => Some (VStr str, r1)
    | None => None
    end.
Proof. reflexivity. Qed.

Lemma parse_value_bracket (f : nat) (tl : chars) :
  parse_value (S f) ("[" :: tl)
  = match strip_prefix ["]"] (skip_ws tl) with
    | Some r1 => Some (VArr [], r1)
    | None =>
        match parse_elements f tl with
        | Some (l, r1) => Some (VArr l, r1)
        | None => None
        end
    end.
Proof. reflexivity. Qed.

Lemma parse_value_brace (f : nat) (tl : chars) :
  parse_value (S f) ("{" :: tl)
  = match strip_prefix ["}"] (skip_ws tl) with
    | Some r1 => Some (VObj [], r1)
    | None =>
        match parse_members f tl with
        | Some (ps, r1) => Some (make_object ps, r1)
        | None => None
        end
    end.
Proof. reflexivity. Qed.

Lemma parse_elements_step (f : nat) (s : chars) :
  parse_elements (S f) s
  = match parse_value f s with
    | Some (v, r) =>
        match skip_ws r with
        | c :: r1 =>
            if (c =? ",")%char then
              match parse_elements f r1 with
              | Some (l, r2) => Some (v :: l, r2)
              | None => None
              end
            else if (c =? "]")%char then Some ([v], r1)
            else None
        | [] => None
        end
    | None => None
    end.
Proof. reflexivity. Qed.

Lemma parse_members_step (f : nat) (tl : chars) :
  parse_members (S f) (quote_mark :: tl)
  = match parse_string_body tl with
    | Some (k, r1) =>
        match strip_prefix [":"] (skip_ws r1) with
        | Some r2 =>
            match parse_value f r2 with
            | Some (v, r3) =>
                match skip_ws r3 with
                | c :: r4 =>
                    if (c =? ",")%char then
                      match parse_members f r4 with
                      | Some (ps, r5) => Some ((k, v) :: ps, r5)
                      | None => None
                      end
                    else if (c =? "}")%char then Some ([(k, v)], r4)
                    else None
                | [] => None
                end
            | None => None
            end
        | None => None
        end
    | None => None
    end.
Proof. reflexivity. Qed.

Lemma elements_read_back (l : list value) :
  l <> [] ->
  Forall reads_back l ->
  forallb json_plain l = true ->
  forall (fuel : nat) (rest : chars),
    (elements_fuel l <= fuel)%nat ->
    parse_elements fuel (join_commas (map print l) ++ "]" :: rest)
    = Some (l, rest).
Proof.
  induction l as [|x l IH]; [congruence|].
  intros _ Hall Hplain fuel rest Hfuel.
  inversion Hall as [|? ? Hx Hl]; subst.
  cbn [forallb] in Hplain. apply andb_true_iff in Hplain.
  destruct Hplain as [Hpx Hpl].
  cbn [elements_fuel] in Hfuel.
  destruct fuel as [|f]; [lia|].
  rewrite parse_elements_step.
  destruct l as [|y l].
  - cbn [map join_commas].
    rewrite (Hx Hpx f ("]" :: rest)) by lia.
    reflexivity.
  - change (join_commas (map print (x :: y :: l)))
      with (print x ++ "," :: join_commas (map print (y :: l))).
    rewrite <- List.app_assoc. cbn [app].
    rewrite (Hx Hpx f) by lia.
    rewrite skip_ws_start by reflexivity. cbv beta iota.
    rewrite Ascii.eqb_refl.
    rewrite (IH ltac:(discriminate) Hl Hpl f rest) by (cbn [elements_fuel] in *; lia).
    reflexivity.
Qed.


Lemma members_read_back (ps : list (string * value)) :
  ps <> [] ->
  Forall (fun kv => reads_back (snd kv)) ps ->
  forallb (fun kv => json_plain (snd kv)) ps = true ->
  forall (fuel : nat) (rest : chars),
    (members_fuel ps <= fuel)%nat ->
    parse_members fuel (join_commas (map print_member ps) ++ "}" :: rest)
    = Some (ps, rest).
Proof.
  induction ps as [|[k v] ps IH]; [congruence|].
  intros _ Hall Hplain fuel rest Hfuel.
  inversion Hall as [|? ? Hv Hps]; subst. cbn [snd] in Hv.
  cbn [forallb snd] in Hplain. apply andb_true_iff in Hplain.
  destruct Hplain as [Hpv Hpps].
  cbn [members_fuel snd] in Hfuel.
  destruct fuel as [|f]; [lia|].
  destruct ps as [|kv ps].
  - cbn [map join_commas]. unfold print_member at 1. cbn [fst snd].
    rewrite <- List.app_assoc, quote_app. cbn [app].
    rewrite parse_members_step, parse_escaped.
    rewrite skip_ws_start by reflexivity.
    cbn [strip_prefix]. rewrite Ascii.eqb_refl.
    rewrite (Hv Hpv f ("}" :: rest)) by lia.
    reflexivity.
  - change (join_commas (map print_member ((k, v) :: kv :: ps)))
      with (print_member (k, v) ++
            "," :: join_commas (map print_member (kv :: ps))).
    unfold print_member at 1. cbn [fst snd].
    rewrite <- !List.app_assoc, quote_app. cbn [app].
    rewrite parse_members_step, parse_escaped.
    rewrite skip_ws_start by reflexivity.
    cbn [strip_prefix]. rewrite Ascii.eqb_refl.
    rewrite (Hv Hpv f) by lia.
    rewrite skip_ws_start by reflexivity. cbv beta iota.
    rewrite Ascii.eqb_refl.
    rewrite (IH ltac:(discriminate) Hps Hpps f rest)
      by (cbn [members_fuel] in *; lia).
    reflexivity.
Qed.

(** Distinct keys: the object read is the list of properties written. *)
Lemma distinct_NoDup (l : list string) : distinct l = true -> NoDup l.
Proof.
  induction l as [|k l IH]; cbn [distinct]; intros H; [constructor|].
  apply andb_true_iff in H. destruct H as [Hk Hl].
  constructor; [|apply IH; exact Hl].
  intros Hin. apply negb_true_iff in Hk.
  assert (E : existsb (String.eqb k) l = true)
    by (apply existsb_exists; exists k; split;
        [exact Hin | apply String.eqb_refl]).
  congruence.
Qed.

Lemma obj_set_fresh (k : string) (v : value) (acc : list (string * value)) :
  ~ In k (map fst acc) -> obj_set k v acc = acc ++ [(k, v)].
Proof.
  induction acc as [|[k' v'] acc IH]; cbn [obj_set map fst In app];
    intros H; [reflexivity|].
  destruct (String.eqb_spec k' k) as [E | _]; [tauto|].
  rewrite IH by tauto. reflexivity.
Qed.

Lemma fold_obj_set (ps acc : list (string * value)) :
  NoDup (map fst (acc ++ ps)) ->
  fold_left (fun a kv => obj_set (fst kv) (snd kv) a) ps acc = acc ++ ps.
Proof.
  revert acc. induction ps as [|[k v] ps IH]; intros acc H; cbn [fold_left].
  - rewrite List.app_nil_r. reflexivity.
  - cbn [fst snd]. rewrite obj_set_fresh.
    + rewrite IH; rewrite <- List.app_assoc; [reflexivity | exact H].
    + rewrite map_app in H. cbn [map fst] in H.
      apply NoDup_remove_2 in H. intros Hin. apply H.
      apply in_or_app. left. exact Hin.
Qed.

Lemma make_object_distinct (ps : list (string * value)) :
  distinct (map fst ps) = true -> make_object ps = VObj ps.
Proof.
  intros H. unfold make_object. rewrite fold_obj_set; [reflexivity|].
  apply distinct_NoDup. exact H.
Qed.

Lemma plain_is_defined (v : value) :
  json_plain v = true -> is_undefined v = false.
Proof. destruct v; try discriminate; reflexivity. Qed.

Lemma print_members_plain (ps : list (string * value)) :
  forallb (fun kv => json_plain (snd kv)) ps = true ->
  somes (map (fun kv => if is_undefined (snd kv) then None
                        else Some (quote (fst kv) ++ ":" :: print (snd kv)))
             ps)
  = map print_member ps.
Proof.
  induction ps as [|kv ps IH]; cbn [forallb map somes]; intros H;
    [reflexivity|].
  apply andb_true_iff in H. destruct H as [Hkv Hps].
  rewrite (plain_is_defined _ Hkv), (IH Hps). reflexivity.
Qed.

Lemma fuel_for_array (l : list value) :
  fuel_for (VArr l) = S (elements_fuel l).
Proof. reflexivity. Qed.

Lemma fuel_for_object (ps : list (string * value)) :
  fuel_for (VObj ps) = S (members_fuel ps).
Proof. reflexivity. Qed.

(** Every plain value is read back from what was written for it, whatever
    follows. *)
Lemma value_reads_back (v : value) : reads_back v.
Proof.
  induction v as [| |b|m e|s|l IH|ps IH] using value_ind;
    intros Hplain fuel rest Hfuel; try discriminate;
    (destruct fuel as [|f]; [cbn [fuel_for] in Hfuel; lia|]).
  - reflexivity.
  - destruct b; reflexivity.
  - cbn [print]. rewrite quote_app, parse_value_quote, parse_escaped.
    reflexivity.
  - cbn [print app]. rewrite parse_value_bracket.
    rewrite fuel_for_array in Hfuel. cbn [json_plain] in Hplain.
    destruct l as [|x l].
    + reflexivity.
    + assert (Hx : json_plain x = true)
        by (cbn [forallb] in Hplain; apply andb_true_iff in Hplain; tauto).
      destruct (print_start x Hx) as (c & tl & Ec & Hc).
      rewrite <- List.app_assoc. cbn [app].
      rewrite (elements_read_back (x :: l) ltac:(discriminate) IH Hplain
                                  f rest) by lia.
      assert (Ehead : exists tl',
                 join_commas (map print (x :: l)) ++ "]" :: rest = c :: tl').
      { destruct l as [|y l]; cbn [map join_commas]; rewrite Ec;
          eexists; reflexivity. }
      destruct Ehead as (tl' & ->).
      rewrite skip_ws_start by (apply value_start_not_ws; exact Hc).
      cbn [strip_prefix].
      destruct (value_start_not_closing c Hc) as [-> _]. reflexivity.
  - cbn [print app]. rewrite parse_value_brace.
    rewrite fuel_for_object in Hfuel. cbn [json_plain] in Hplain.
    apply andb_true_iff in Hplain. destruct Hplain as [Hkeys Hvals].
    apply andb_true_iff in Hkeys. destruct Hkeys as [Hdistinct _].
    rewrite (print_members_plain _ Hvals).
    destruct ps as [|[k v] ps].
    + reflexivity.
    + rewrite <- List.app_assoc. cbn [app].
      rewrite (members_read_back ((k, v) :: ps) ltac:(discriminate)
                                 IH Hvals f rest) by lia.
      assert (Ehead : exists tl',
                 join_commas (map print_member ((k, v) :: ps)) ++ "}" :: rest
                 = quote_mark :: tl').
      { destruct ps as [|kv ps]; cbn [map join_commas];
          unfold print_member at 1; unfold quote; cbn [app];
          eexists; reflexivity. }
      destruct Ehead as (tl' & ->).
      rewrite skip_ws_start by reflexivity.
      cbn [strip_prefix].
      change ("}" =? quote_mark) with false. cbv beta iota.
      rewrite (make_object_distinct _ Hdistinct). reflexivity.
Qed.

(** The fuel [parse] starts with is enough. *)
Lemma length_join_commas (xs : list chars) (x : chars) :
  List.length (join_commas (x :: xs))
  = (List.length x + match xs with
                     | [] => 0
                     | _ :: _ => S (List.length (join_commas xs))
                     end)%nat.
Proof.
  destruct xs as [|y xs]; cbn [join_commas].
  - lia.
  - rewrite length_app. cbn [List.length]. reflexivity.
Qed.

Lemma elements_fuel_bound (l : list value) :
  Forall fuel_bounded l ->
  forallb json_plain l = true ->
  (elements_fuel l <= 2 * List.length (join_commas (map print l)) + 1)%nat.
Proof.
  induction 1 as [|x l Hx _ IH]; cbn [forallb]; intros Hp.
  - cbn. lia.
  - apply andb_true_iff in Hp. destruct Hp as [Hpx Hpl].
    specialize (IH Hpl). specialize (Hx Hpx).
    cbn [elements_fuel map]. rewrite length_join_commas.
    destruct (map print l) eqn:E.
    + destruct l; [|discriminate]. cbn [elements_fuel]. lia.
    + lia.
Qed.

Lemma members_fuel_bound (ps : list (string * value)) :
  Forall (fun kv => fuel_bounded (snd kv)) ps ->
  forallb (fun kv => json_plain (snd kv)) ps = true ->
  (members_fuel ps <= 2 * List.length (join_commas (map print_member ps)) + 1)%nat.
Proof.
  induction 1 as [|[k v] ps Hv _ IH]; cbn [forallb snd]; intros Hp.
  - cbn. lia.
  - apply andb_true_iff in Hp. destruct Hp as [Hpv Hpps].
    specialize (IH Hpps). cbn [snd] in Hv. specialize (Hv Hpv).
    cbn [members_fuel map snd]. rewrite length_join_commas.
    assert (Hlen : (List.length (print v) <= List.length (print_member (k, v)))%nat).
    { unfold print_member. rewrite length_app. cbn [fst snd List.length]. lia. }
    destruct (map print_member ps) eqn:E.
    + destruct ps; [|discriminate]. cbn [members_fuel]. lia.
    + lia.
Qed.

Lemma fuel_bound (v : value) : fuel_bounded v.
Proof.
  induction v as [| |b|m e|s|l IH|ps IH] using value_ind;
    intros Hplain; try discriminate.
  - cbn. lia.
  - destruct b; cbn; lia.
  - cbn [fuel_for print]. unfold quote. cbn [List.length]. lia.
  - rewrite fuel_for_array. cbn [json_plain] in Hplain.
    pose proof (elements_fuel_bound _ IH Hplain) as Hb.
    cbn [print List.length]. rewrite length_app. cbn [List.length]. lia.
  - rewrite fuel_for_object. cbn [json_plain] in Hplain.
    apply andb_true_iff in Hplain. destruct Hplain as [_ Hvals].
    pose proof (members_fuel_bound _ IH Hvals) as Hb.
    cbn [print]. rewrite (print_members_plain _ Hvals).
    cbn [List.length]. rewrite length_app. cbn [List.length]. lia.
Qed.

Lemma parse_stringify_plain (v : value) :
  json_plain v = true -> parse (stringify v) = Some v.
Proof.
  intros Hplain. unfold parse, stringify.
  replace (match v with VUndefined => "undefined"%string
                   | _ => string_of_list_ascii (print v) end)
    with (string_of_list_ascii (print v))
    by (destruct v; try reflexivity; discriminate).
  rewrite list_ascii_of_string_of_list_ascii.
  rewrite <- (List.app_nil_r (print v)) at 2.
  rewrite (value_reads_back v Hplain).
  - reflexivity.
  - pose proof (fuel_bound v Hplain). lia.
Qed.

Lemma parse_nothing : parse EmptyString = None.
Proof. reflexivity. Qed.

(** The reference runtime is a runtime in the sense of [JSONLaws]. *)
Lemma laws : JSONLaws RefJSON.host.
Proof.
  constructor.
  - exact parse_stringify_plain.
  - exact parse_nothing.
Qed.

End RefJSONFacts.

(* ------------------------------------------------------------------------- *)
(** ** Saving and loading on the reference runtime *)
(* ------------------------------------------------------------------------- *)

(** The round trip at the store [a, b, c], loaded into a session with nothing
    in memory. *)
Lemma save_then_load_round_trip_witness :
  exists s',
    TodoStore.loadFromStorage (host := RefJSON.host)
      (mkState [] (localStorage
                     (snd (TodoStore.saveToStorage (host := RefJSON.host)
                                                   three_tasks))))
    = (Normal tt, s') /\
    _todos s' = _todos three_tasks.
Proof.
  apply (save_then_load_round_trip (host := RefJSON.host) RefJSONFacts.laws
           three_tasks
           (mkState [] (localStorage
                          (snd (TodoStore.saveToStorage (host := RefJSON.host)
                                                        three_tasks))))).
  - reflexivity.
  - reflexivity.
Defined.

(** C6 as stated fails: the stored value [[{}]] is an array holding one
    empty object, which is not of the spec's shape, and loading it leaves
    one task in memory, with no id and no text. *)
Lemma misshapen_array_is_loaded :
  JSON_parse (JSONHost := RefJSON.host) "[{}]" = Some (VArr [VObj []]) /\
  well_shaped (VArr [VObj []]) = false /\
  _todos (snd (TodoStore.loadFromStorage (host := RefJSON.host)
                 (session_with "[{}]")))
  = [mkTodo VUndefined VUndefined (VBool false)] /\
  _todos (snd (TodoStore.loadFromStorage (host := RefJSON.host)
                 (session_with "[{}]")))
  <> [].
Proof.
  assert (E : _todos (snd (TodoStore.loadFromStorage (host := RefJSON.host)
                             (session_with "[{}]")))
              = [mkTodo VUndefined VUndefined (VBool false)])
    by (vm_compute; reflexivity).
  split; [vm_compute; reflexivity|]. split; [reflexivity|].
  split; [exact E|]. rewrite E. discriminate.
Qed.

(* ------------------------------------------------------------------------- *)
(** ** More on the store's methods *)
(* ------------------------------------------------------------------------- *)

Section store_cases.
Context {host : JSONHost}.
Import TodoStore.

(** A lookup by id either finds no task or splits the tasks at the first one
    carrying the id. *)
Lemma lookup_cases (i : string) (l : list Todo) :
  Forall (fun y => strict_eq_str (id y) i = false) l \/
  exists pre x post,
    l = pre ++ x :: post /\
    Forall (fun y => strict_eq_str (id y) i = false) pre /\
    strict_eq_str (id x) i = true.
Proof. apply (first_passing (fun t => strict_eq_str (id t) i)). Qed.

(** [reorderTodos] either leaves the state alone or does what
    [reorder_present] describes. *)
Lemma reorder_cases (s : State) (draggedId targetId : string) :
  reorderTodos draggedId targetId s = (Normal tt, s) \/
  exists pre d post l1 t l2,
    reorderTodos draggedId targetId s
    = (Normal tt, persisted (l1 ++ d :: t :: l2) (localStorage s)) /\
    _todos s = pre ++ d :: post /\
    id d = VStr draggedId /\
    Forall (fun x => id x <> VStr draggedId) pre /\
    pre ++ post = l1 ++ t :: l2 /\
    id t = VStr targetId /\
    Forall (fun x => id x <> VStr targetId) l1.
Proof.
  destruct (string_dec draggedId targetId) as [-> | Hneq];
    [left; apply reorderTodos_same|].
  destruct (has_id draggedId (_todos s)) eqn:Hd;
    [|left; apply reorderTodos_dragged_absent, has_id_false, Hd].
  destruct (has_id targetId (_todos s)) eqn:Ht;
    [|left; apply reorderTodos_target_absent, has_id_false, Ht].
  right. apply reorder_present; auto using has_id_true.
Qed.

Lemma reorder_permutes (pre : list Todo) (d : Todo) (post l1 : list Todo)
      (t : Todo) (l2 : list Todo) :
  pre ++ post = l1 ++ t :: l2 ->
  Permutation (pre ++ d :: post) (l1 ++ d :: t :: l2).
Proof.
  intros E.
  apply Permutation_trans with (d :: pre ++ post).
  - apply Permutation_sym, Permutation_middle.
  - rewrite E. apply Permutation_middle.
Qed.

(** Every mutating call completes; it either leaves the state as it was or
    replaces the tasks and saves them. *)
Lemma perform_completes (o : operation) (s : State) :
  exists s',
    perform o s = (Normal tt, s') /\
    (s' = s \/ exists l, s' = persisted l (localStorage s)).
Proof.
  destruct o as [now rnd36 text' | i newText | i | i | | d t]; cbn [perform].
  - eexists. split.
    + erewrite bind_normal by apply addTodo_run. reflexivity.
    + right. eexists. reflexivity.
  - destruct (lookup_cases i (_todos s)) as [H | (pre & x & post & Hl & Hp & Hx)].
    + exists s. split; [apply editTodo_absent, H | left; reflexivity].
    + eexists. split; [apply (editTodo_found s i newText pre x post Hl Hp Hx)|].
      right. eexists. reflexivity.
  - destruct (lookup_cases i (_todos s)) as [H | (pre & x & post & Hl & Hp & Hx)].
    + exists s. split; [apply toggleTodo_absent, H | left; reflexivity].
    + eexists. split; [apply (toggleTodo_found s i pre x post Hl Hp Hx)|].
      right. eexists. reflexivity.
  - destruct (lookup_cases i (_todos s)) as [H | (pre & x & post & Hl & Hp & Hx)].
    + exists s. split; [apply deleteTodo_absent, H | left; reflexivity].
    + eexists. split; [apply (deleteTodo_found s i pre x post Hl Hp Hx)|].
      right. eexists. reflexivity.
  - eexists. split; [apply clearCompleted_run|]. right. eexists. reflexivity.
  - destruct (reorder_cases s d t) as [H | (pre & x & post & l1 & y & l2 & H & _)].
    + exists s. split; [exact H | left; reflexivity].
    + eexists. split; [exact H|]. right. eexists. reflexivity.
Qed.

(** A property of single tasks that [toggle] keeps, that the task made by
    an [Add] has and that the text set by an [Edit] keeps, is kept for all
    tasks by every mutating call. *)
Lemma perform_keeps (P : Todo -> bool) (o : operation) (s : State) :
  (forall x, P x = true -> P (toggle x) = true) ->
  match o with
  | Add now rnd36 text' =>
      P (new_Todo (VStr (generate_id now rnd36)) (VStr text') VUndefined) = true
  | Edit _ newText => forall x, P x = true -> P (setText (VStr newText) x) = true
  | _ => True
  end ->
  forallb P (_todos s) = true ->
  forallb P (_todos (snd (perform o s))) = true.
Proof.
  intros Htoggle Ho Hall.
  destruct o as [now rnd36 text' | i newText | i | i | | d t]; cbn [perform].
  - erewrite bind_normal by apply addTodo_run.
    cbn [ret snd persisted _todos]. rewrite forallb_app, Hall. cbn [forallb].
    rewrite Ho. reflexivity.
  - destruct (lookup_cases i (_todos s)) as [H | (pre & x & post & Hl & Hp & Hx)].
    + rewrite editTodo_absent by exact H. exact Hall.
    + rewrite (editTodo_found s i newText pre x post Hl Hp Hx).
      cbn [snd persisted _todos]. rewrite Hl in Hall.
      apply forallb_around in Hall. destruct Hall as (H1 & H2 & H3).
      apply forallb_around. auto.
  - destruct (lookup_cases i (_todos s)) as [H | (pre & x & post & Hl & Hp & Hx)].
    + rewrite toggleTodo_absent by exact H. exact Hall.
    + rewrite (toggleTodo_found s i pre x post Hl Hp Hx).
      cbn [snd persisted _todos]. rewrite Hl in Hall.
      apply forallb_around in Hall. destruct Hall as (H1 & H2 & H3).
      apply forallb_around. auto.
  - destruct (lookup_cases i (_todos s)) as [H | (pre & x & post & Hl & Hp & Hx)].
    + rewrite deleteTodo_absent by exact H. exact Hall.
    + rewrite (deleteTodo_found s i pre x post Hl Hp Hx).
      cbn [snd persisted _todos]. rewrite Hl in Hall.
      apply forallb_around in Hall. destruct Hall as (H1 & H2 & H3).
      rewrite forallb_app, H1, H3. reflexivity.
  - rewrite clearCompleted_run. cbn [snd persisted _todos].
    apply forallb_forall. intros x Hx. apply filter_In in Hx.
    rewrite forallb_forall in Hall. apply Hall. tauto.
  - destruct (reorder_cases s d t)
      as [H | (pre & x & post & l1 & y & l2 & H & Hl & _ & _ & Hrest & _)];
      rewrite H; cbn [snd persisted _todos]; [exact Hall|].
    rewrite forallb_forall in Hall. apply forallb_forall. intros z Hz.
    apply Hall. rewrite Hl.
    apply (Permutation_in z (Permutation_sym
                               (reorder_permutes pre x post l1 y l2 Hrest))).
    exact Hz.
Qed.


Lemma filterTodos_run (mode : string) (s : State) :
  exists l,
    filterTodos mode s = (Normal l, s) /\ incl l (_todos s).
Proof.
  unfold filterTodos, bind, get_todos, ret.
  destruct (mode =? "active")%string;
    [eexists; split; [reflexivity | intros x Hx; apply filter_In in Hx; tauto]|].
  destruct (mode =? "completed")%string;
    [eexists; split; [reflexivity | intros x Hx; apply filter_In in Hx; tauto]|].
  eexists. split; [reflexivity | apply incl_refl].
Qed.

(** X1.  [deleteTodo] with an id some task carries completes, takes out the
    first task carrying it and no other, leaves the remaining tasks in their
    order, and saves them. *)
Theorem deleteTodo_takes_out_first_match (s : State) (i : string) :
  In (VStr i) (map id (_todos s)) ->
  exists s' pre x post,
    deleteTodo i s = (Normal tt, s') /\
    _todos s = pre ++ x :: post /\
    id x = VStr i /\
    Forall (fun y => id y <> VStr i) pre /\
    _todos s' = pre ++ post /\
    in_sync s'.
Proof.
  intros Hin.
  destruct (present_id _ _ Hin) as (pre & x & post & Hl & Hpre & Hx).
  exists (persisted (pre ++ post) (localStorage s)), pre, x, post.
  split; [apply (deleteTodo_found s i pre x post Hl Hpre Hx)|].
  repeat split.
  - exact Hl.
  - apply strict_eq_str_true, Hx.
  - apply Forall_id_differs, Hpre.
Qed.

(** X2.  On a store whose ids are pairwise distinct, after [deleteTodo i] no
    task carries [i], so [filterTodos] returns none that does, whatever the
    mode. *)
Theorem deleted_id_shows_under_no_filter (s : State) (i mode : string) :
  NoDup (map id (_todos s)) ->
  exists s' l,
    deleteTodo i s = (Normal tt, s') /\
    filterTodos mode s' = (Normal l, s') /\
    ~ In (VStr i) (map id l).
Proof.
  intros Hnodup.
  assert (Hgone : exists s',
             deleteTodo i s = (Normal tt, s') /\
             ~ In (VStr i) (map id (_todos s'))).
  { destruct (lookup_cases i (_todos s)) as [H | (pre & x & post & Hl & Hp & Hx)].
    - exists s. split; [apply deleteTodo_absent, H|].
      intros Hin. apply in_map_iff in Hin. destruct Hin as (y & Ey & Hy).
      rewrite Forall_forall in H. specialize (H y Hy).
      apply strict_eq_str_false in H. congruence.
    - exists (persisted (pre ++ post) (localStorage s)).
      split; [apply (deleteTodo_found s i pre x post Hl Hp Hx)|].
      cbn [persisted _todos]. rewrite Hl, map_app in Hnodup.
      cbn [map] in Hnodup. apply strict_eq_str_true in Hx. rewrite Hx in Hnodup.
      apply NoDup_remove_2 in Hnodup. rewrite map_app. exact Hnodup. }
  destruct Hgone as (s' & Hrun & Hgone).
  destruct (filterTodos_run mode s') as (l & Hl & Hincl).
  exists s', l. repeat split; try assumption.
  intros Hin. apply Hgone. apply in_map_iff in Hin.
  destruct Hin as (y & Ey & Hy). rewrite <- Ey. apply in_map, Hincl, Hy.
Qed.

(** X3.  [clearCompleted] twice is [clearCompleted] once: the second call
    finds nothing to remove and writes the same value again, under the same
    key. *)
Theorem clearCompleted_twice_is_once (s : State) :
  _todos (snd (clearCompleted (snd (clearCompleted s))))
  = _todos (snd (clearCompleted s)) /\
  forall k,
    localStorage (snd (clearCompleted (snd (clearCompleted s)))) k
    = localStorage (snd (clearCompleted s)) k.
Proof.
  rewrite !clearCompleted_run. cbn [snd persisted _todos localStorage].
  assert (E : filter (fun t => negb (ToBoolean (completed t)))
                     (filter (fun t => negb (ToBoolean (completed t)))
                             (_todos s))
              = filter (fun t => negb (ToBoolean (completed t))) (_todos s))
    by (apply forallb_filter_id, forallb_filter).
  split; [exact E|]. intros k. rewrite E.
  destruct (k =? _storageKey)%string; reflexivity.
Qed.

(** X4.  After [clearCompleted] the tasks in memory are the ones
    [filterTodos "active"] returned before; [filterTodos "completed"] now
    returns none and [filterTodos "active"] returns them all. *)
Theorem clearCompleted_leaves_the_active (s : State) :
  exists s' active,
    clearCompleted s = (Normal tt, s') /\
    filterTodos "active" s = (Normal active, s) /\
    _todos s' = active /\
    filterTodos "completed" s' = (Normal [], s') /\
    filterTodos "active" s' = (Normal active, s').
Proof.
  eexists. eexists. split; [apply clearCompleted_run|].
  split; [reflexivity|]. split; [reflexivity|].
  unfold filterTodos, bind, get_todos, ret. cbn [persisted _todos].
  cbn [String.eqb Ascii.eqb Bool.eqb].
  split.
  - f_equal. f_equal.
    induction (_todos s) as [|t l IH]; [reflexivity|]. cbn [filter].
    destruct (ToBoolean (completed t)) eqn:E; cbn [negb filter]; [exact IH|].
    rewrite E. exact IH.
  - f_equal. f_equal. apply forallb_filter_id, forallb_filter.
Qed.

(** X5.  [editTodo] with an id some task carries completes and replaces the
    text of the first task carrying it, and nothing else: the tasks before
    and after it, its id and its completed flag are as they were, and so are
    the number and the order of the tasks. *)
Theorem editTodo_changes_one_text (s : State) (i newText : string) :
  In (VStr i) (map id (_todos s)) ->
  exists s' pre x x' post,
    editTodo i newText s = (Normal tt, s') /\
    _todos s = pre ++ x :: post /\
    Forall (fun y => id y <> VStr i) pre /\
    id x = VStr i /\
    _todos s' = pre ++ x' :: post /\
    text x' = VStr newText /\
    id x' = id x /\
    completed x' = completed x /\
    in_sync s'.
Proof.
  intros Hin.
  destruct (present_id _ _ Hin) as (pre & x & post & Hl & Hpre & Hx).
  exists (persisted (pre ++ setText (VStr newText) x :: post) (localStorage s)),
         pre, x, (setText (VStr newText) x), post.
  split; [apply (editTodo_found s i newText pre x post Hl Hpre Hx)|].
  repeat split.
  - exact Hl.
  - apply Forall_id_differs, Hpre.
  - apply strict_eq_str_true, Hx.
Qed.

(** X6.  On tasks with a boolean [completed], [toggleTodo] twice with the
    same id brings the tasks back to what they were. *)
Theorem toggleTodo_twice_restores (s : State) (i : string) :
  Forall (fun t => is_boolean (completed t) = true) (_todos s) ->
  exists s1 s2,
    toggleTodo i s = (Normal tt, s1) /\
    toggleTodo i s1 = (Normal tt, s2) /\
    _todos s2 = _todos s.
Proof.
  intros Hbool.
  destruct (lookup_cases i (_todos s)) as [H | (pre & x & post & Hl & Hp & Hx)].
  - exists s, s. repeat split; apply toggleTodo_absent, H.
  - exists (persisted (pre ++ toggle x :: post) (localStorage s)).
    eexists. split; [apply (toggleTodo_found s i pre x post Hl Hp Hx)|].
    split.
    + apply (toggleTodo_found _ i pre (toggle x) post); [reflexivity | exact Hp|].
      exact Hx.
    + cbn [persisted _todos]. rewrite Hl. f_equal. f_equal.
      rewrite Hl in Hbool. apply Forall_app in Hbool. destruct Hbool as [_ Hb].
      inversion Hb as [|? ? Hxb _]; subst.
      destruct x as [xi xt xc]. unfold toggle. cbn [id text completed] in *.
      destruct xc as [| |b| | | |]; try discriminate.
      cbn [ToBoolean]. rewrite negb_involutive. reflexivity.
Qed.

(** Taking tasks out cannot make two ids equal. *)
Lemma distinct_ids_under_filter (keep : Todo -> bool) (tasks : list Todo) :
  NoDup (map id tasks) -> NoDup (map id (filter keep tasks)).
Proof.
  intros Hdistinct. induction tasks as [|t tasks IH]; [constructor|].
  cbn [map] in Hdistinct. apply NoDup_cons_iff in Hdistinct.
  destruct Hdistinct as [Hnew Hrest]. cbn [filter].
  destruct (keep t); [|apply IH, Hrest].
  cbn [map]. apply NoDup_cons; [|apply IH, Hrest].
  intros Hin. apply Hnew. apply in_map_iff in Hin.
  destruct Hin as (y & Ey & Hy). apply filter_In in Hy.
  rewrite <- Ey. apply in_map. tauto.
Qed.

(** X7.  No call but [addTodo] can make two tasks share an id: on a store
    whose ids are pairwise distinct they still are after [editTodo],
    [toggleTodo], [deleteTodo], [clearCompleted] and [reorderTodos], and
    after [addTodo] when the id it generates is not yet in the store. *)
Theorem ids_stay_distinct (o : operation) (s : State) :
  NoDup (map id (_todos s)) ->
  match o with
  | Add now rnd36 _ => ~ In (VStr (generate_id now rnd36)) (map id (_todos s))
  | _ => True
  end ->
  exists s',
    perform o s = (Normal tt, s') /\ NoDup (map id (_todos s')).
Proof.
  intros Hnodup Hfresh.
  destruct o as [now rnd36 text' | i newText | i | i | | d t]; cbn [perform].
  - eexists. split; [erewrite bind_normal by apply addTodo_run; reflexivity|].
    cbn [persisted _todos]. rewrite map_app. cbn [map new_Todo id].
    apply (Permutation_NoDup (Permutation_cons_append _ _)).
    constructor; assumption.
  - destruct (lookup_cases i (_todos s)) as [H | (pre & x & post & Hl & Hp & Hx)].
    + exists s. split; [apply editTodo_absent, H | exact Hnodup].
    + eexists. split; [apply (editTodo_found s i newText pre x post Hl Hp Hx)|].
      cbn [persisted _todos]. rewrite Hl in Hnodup.
      rewrite map_app in Hnodup |- *. exact Hnodup.
  - destruct (lookup_cases i (_todos s)) as [H | (pre & x & post & Hl & Hp & Hx)].
    + exists s. split; [apply toggleTodo_absent, H | exact Hnodup].
    + eexists. split; [apply (toggleTodo_found s i pre x post Hl Hp Hx)|].
      cbn [persisted _todos]. rewrite Hl in Hnodup.
      rewrite map_app in Hnodup |- *. exact Hnodup.
  - destruct (lookup_cases i (_todos s)) as [H | (pre & x & post & Hl & Hp & Hx)].
    + exists s. split; [apply deleteTodo_absent, H | exact Hnodup].
    + eexists. split; [apply (deleteTodo_found s i pre x post Hl Hp Hx)|].
      cbn [persisted _todos]. rewrite Hl in Hnodup.
      rewrite map_app in Hnodup |- *. cbn [map] in Hnodup.
      apply NoDup_remove_1 in Hnodup. exact Hnodup.
  - eexists. split; [apply clearCompleted_run|].
    cbn [persisted _todos]. apply distinct_ids_under_filter, Hnodup.
  - destruct (reorder_cases s d t)
      as [H | (pre & x & post & l1 & y & l2 & H & Hl & _ & _ & Hrest & _)].
    + exists s. split; assumption.
    + eexists. split; [exact H|]. cbn [persisted _todos].
      rewrite Hl in Hnodup.
      apply (Permutation_NoDup
               (Permutation_map id (reorder_permutes pre x post l1 y l2 Hrest))).
      exact Hnodup.
Qed.

(** X8.  [reorderTodos] only rearranges: whatever the two ids, it completes
    and the tasks afterwards are the tasks before, each as often as before,
    in some order. *)
Theorem reorderTodos_rearranges (s : State) (draggedId targetId : string) :
  exists s',
    reorderTodos draggedId targetId s = (Normal tt, s') /\
    Permutation (_todos s) (_todos s').
Proof.
  destruct (reorder_cases s draggedId targetId)
    as [H | (pre & x & post & l1 & y & l2 & H & Hl & _ & _ & Hrest & _)].
  - exists s. split; [exact H | apply Permutation_refl].
  - eexists. split; [exact H|]. cbn [persisted _todos]. rewrite Hl.
    apply reorder_permutes, Hrest.
Qed.

(** X9.  A task dropped on another never ends up last: when the two ids
    differ and both occur, some task follows the dragged one afterwards,
    and the last task is the one that was last among the others. *)
Theorem dragged_task_is_never_last
    (s : State) (draggedId targetId : string) (dflt : Todo) :
  draggedId <> targetId ->
  In (VStr draggedId) (map id (_todos s)) ->
  In (VStr targetId) (map id (_todos s)) ->
  exists s' pre d post front back,
    reorderTodos draggedId targetId s = (Normal tt, s') /\
    _todos s = pre ++ d :: post /\
    id d = VStr draggedId /\
    Forall (fun x => id x <> VStr draggedId) pre /\
    _todos s' = front ++ d :: back /\
    back <> [] /\
    last (_todos s') dflt = last (pre ++ post) dflt.
Proof.
  intros Hneq Hd Ht.
  destruct (reorder_present s _ _ Hneq Hd Ht)
    as (pre & d & post & l1 & t & l2 & Hrun & Hl & Hid & Hpre & Hrest & _).
  exists (persisted (l1 ++ d :: t :: l2) (localStorage s)),
         pre, d, post, l1, (t :: l2).
  repeat split; try assumption; try discriminate.
  cbn [persisted _todos]. rewrite Hrest.
  assert (Hlast : forall (a : list Todo) (b : list Todo),
             b <> [] -> last (a ++ b) dflt = last b dflt).
  { intros a b Hb. induction a as [|z a IH]; [reflexivity|].
    cbn [app]. destruct (a ++ b) eqn:E.
    - apply app_eq_nil in E. tauto.
    - rewrite <- IH. reflexivity. }
  rewrite (Hlast l1 (d :: t :: l2)) by discriminate.
  rewrite (Hlast l1 (t :: l2)) by discriminate. reflexivity.
Qed.

(** X10.  The store keeps to its own key: no mutating call changes what
    [localStorage] holds under any other key. *)
Theorem other_keys_are_untouched (o : operation) (s : State) (k : string) :
  k <> _storageKey ->
  exists s',
    perform o s = (Normal tt, s') /\
    localStorage s' k = localStorage s k.
Proof.
  intros Hk.
  destruct (perform_completes o s) as (s' & Hrun & [-> | (l & ->)]);
    eexists; (split; [exact Hrun|]); [reflexivity|].
  cbn [persisted localStorage]. apply String.eqb_neq in Hk. rewrite Hk.
  reflexivity.
Qed.


(** X11.  Typed tasks stay typed through a whole session: after any run of
    mutating calls on a store whose tasks have string ids and texts and a
    boolean [completed], every call has completed and the tasks are still
    of that type. *)
Theorem session_keeps_tasks_typed (ops : list operation) (s : State) :
  forallb typed_task (_todos s) = true ->
  exists s',
    perform_all ops s = (Normal tt, s') /\
    forallb typed_task (_todos s') = true.
Proof.
  revert s. induction ops as [|o ops IH]; intros s Ht.
  - exists s. split; [reflexivity | exact Ht].
  - destruct (perform_completes o s) as (s1 & Hrun & _).
    pose proof (typed_tasks_preserved o s Ht) as Ht1.
    rewrite Hrun in Ht1. cbn [snd] in Ht1.
    destruct (IH s1 Ht1) as (s' & Hrest & Ht').
    exists s'. split; [|exact Ht'].
    cbn [perform_all]. erewrite bind_normal by exact Hrun. exact Hrest.
Qed.

(** Storable tasks just saved are what a later session loads. *)
Lemma persisted_reloads (laws : JSONLaws host) (l : list Todo)
      (ls : string -> option string) :
  forallb storable_task l = true -> reloads (persisted l ls).
Proof.
  intros Hst other Hsame.
  destruct (rehydrate_plain_objects _ Hst) as (elems & He & Hn & Hm & Hp).
  assert (Hslot : localStorage other _storageKey
                  = Some (JSON_stringify (plain_objects l)))
    by (rewrite Hsame; reflexivity).
  assert (Hparse : JSON_parse (JSON_stringify (plain_objects l))
                   = Some (VArr elems))
    by (rewrite parse_stringify by exact Hp; rewrite He; reflexivity).
  assert (Hraw : (JSON_stringify (plain_objects l) =? EmptyString)%string
                 = false).
  { apply String.eqb_neq. intros E. rewrite E, parse_empty in Hparse.
    discriminate. }
  eexists. split.
  - apply (loadFromStorage_array other _ elems Hslot Hparse).
  - cbn [_todos persisted]. rewrite Hraw, Hn. cbn [orb]. exact Hm.
Qed.

Lemma typed_all_storable (l : list Todo) :
  forallb typed_task l = true -> forallb storable_task l = true.
Proof.
  intros H. apply forallb_forall. intros x Hx.
  rewrite forallb_forall in H. apply typed_is_storable, H, Hx.
Qed.

(** X12.  What is in memory is what a reload gives, all through a session:
    on a runtime whose JSON reads back what it writes, starting from typed
    tasks that a load from storage would give, after any run of mutating
    calls a load from storage gives exactly the tasks then in memory. *)
Theorem session_stays_reloadable
    (laws : JSONLaws host) (ops : list operation) (s : State) :
  forallb typed_task (_todos s) = true ->
  reloads s ->
  exists s',
    perform_all ops s = (Normal tt, s') /\
    reloads s'.
Proof.
  revert s. induction ops as [|o ops IH]; intros s Ht Hr.
  - exists s. split; [reflexivity | exact Hr].
  - destruct (perform_completes o s) as (s1 & Hrun & Hshape).
    pose proof (typed_tasks_preserved o s Ht) as Ht1.
    rewrite Hrun in Ht1. cbn [snd] in Ht1.
    assert (Hr1 : reloads s1).
    { destruct Hshape as [-> | (l & ->)]; [exact Hr|].
      apply persisted_reloads; [exact laws|].
      apply typed_all_storable. exact Ht1. }
    destruct (IH s1 Ht1 Hr1) as (s' & Hrest & Hr').
    exists s'. split; [|exact Hr'].
    cbn [perform_all]. erewrite bind_normal by exact Hrun. exact Hrest.
Qed.

(** [loadFromStorage] completes, keeps storage, and leaves in memory tasks
    that depend on nothing but the value stored under the key. *)
Lemma loadFromStorage_from_slot (s1 s2 : State) :
  localStorage s1 _storageKey = localStorage s2 _storageKey ->
  exists l,
    loadFromStorage s1 = (Normal tt, mkState l (localStorage s1)) /\
    loadFromStorage s2 = (Normal tt, mkState l (localStorage s2)).
Proof.
  intros E.
  destruct (localStorage s1 _storageKey) as [raw|] eqn:H1; symmetry in E.
  - destruct (JSON_parse raw) as [v|] eqn:Hp.
    + destruct v;
        try (eexists; split; eapply loadFromStorage_not_array;
             try eassumption; intros l; discriminate).
      eexists. split; eapply loadFromStorage_array; eassumption.
    + eexists. split; eapply loadFromStorage_unparsable; eassumption.
  - eexists. split; apply loadFromStorage_absent; assumption.
Qed.

(** X13.  [loadFromStorage] reads storage and nothing else: two sessions
    with the same storage load the same tasks, whatever they had in memory,
    and loading a second time changes nothing. *)
Theorem loadFromStorage_reads_storage_only (s other : State) :
  localStorage other = localStorage s ->
  loadFromStorage other = loadFromStorage s /\
  loadFromStorage (snd (loadFromStorage s)) = loadFromStorage s.
Proof.
  intros E. split.
  - destruct (loadFromStorage_from_slot other s) as (l & H1 & H2);
      [rewrite E; reflexivity|].
    rewrite H1, H2, E. reflexivity.
  - destruct (loadFromStorage_from_slot s s eq_refl) as (l & H1 & _).
    rewrite H1. cbn [snd].
    destruct (loadFromStorage_from_slot (mkState l (localStorage s)) s eq_refl)
      as (l' & H3 & H4).
    rewrite H3. rewrite H1 in H4. cbn [localStorage]. congruence.
Qed.

Lemma filter_both_ways {A} (p : A -> bool) (l : list A) :
  Permutation (filter (fun x => negb (p x)) l ++ filter p l) l.
Proof.
  induction l as [|a l IH]; [constructor|]. cbn [filter].
  destruct (p a); cbn [negb app].
  - apply Permutation_sym, Permutation_cons_app, Permutation_sym, IH.
  - constructor. exact IH.
Qed.

(** X14.  The active and the completed filter split the tasks in two,
    whatever the tasks hold: every task is returned by exactly one of them,
    as often as it occurs. *)
Theorem active_and_completed_split_the_tasks (s : State) :
  exists active done,
    filterTodos "active" s = (Normal active, s) /\
    filterTodos "completed" s = (Normal done, s) /\
    Permutation (active ++ done) (_todos s) /\
    (forall t, In t active -> In t done -> False).
Proof.
  eexists. eexists. split; [reflexivity|]. split; [reflexivity|].
  split; [apply (filter_both_ways (fun t => ToBoolean (completed t)))|].
  intros t Ha Hc. apply filter_In in Ha. apply filter_In in Hc.
  destruct Ha as [_ Ha]. destruct Hc as [_ Hc]. rewrite Hc in Ha.
  discriminate.
Qed.

Lemma substring_length (n m : nat) (r : string) :
  (String.length (substring n m r) <= m)%nat.
Proof.
  revert n m. induction r as [|c r IH]; intros [|n] [|m]; cbn; try lia.
  - specialize (IH 0%nat m). lia.
  - apply (IH n 0%nat).
  - apply (IH n (S m)).
Qed.

Lemma stamp_not_empty (now : N) : stamp now <> EmptyString.
Proof.
  unfold stamp.
  assert (H : N.to_uint now <> Decimal.Nil).
  { destruct now as [|p]; [discriminate|]. apply DecimalPos.Unsigned.to_uint_nonnil. }
  destruct (N.to_uint now); try discriminate. congruence.
Qed.

Lemma append_length (a b : string) :
  String.length (a ++ b)%string = (String.length a + String.length b)%nat.
Proof. induction a as [|c a IH]; cbn; [reflexivity | rewrite IH; reflexivity]. Qed.

(** X15.  A generated id is never the empty string, and it is the clock
    reading in decimal followed by at most five characters. *)
Theorem generated_id_is_stamp_and_short_suffix (now : N) (rnd36 : string) :
  generate_id now rnd36 <> EmptyString /\
  ToBoolean (VStr (generate_id now rnd36)) = true /\
  (String.length (stamp now) <= String.length (generate_id now rnd36)
   <= String.length (stamp now) + 5)%nat /\
  prefix (stamp now) (generate_id now rnd36) = true.
Proof.
  assert (Hne : generate_id now rnd36 <> EmptyString).
  { unfold generate_id. fold (stamp now). pose proof (stamp_not_empty now) as H.
    destruct (stamp now); [congruence | discriminate]. }
  split; [exact Hne|]. split.
  - cbn [ToBoolean]. apply String.eqb_neq in Hne. rewrite Hne. reflexivity.
  - unfold generate_id. fold (stamp now). split.
    + rewrite append_length. pose proof (substring_length 2 5 rnd36). lia.
    + generalize (substring 2 5 rnd36). intros suf.
      induction (stamp now) as [|c a IH]; cbn.
      * destruct suf; reflexivity.
      * destruct (ascii_dec c c); [exact IH | congruence].
Qed.

(** X16.  A new task shows at the end of the active tasks and of all tasks,
    and not among the completed ones. *)
Theorem new_task_shows_last_among_the_active
    (now : N) (rnd36 text' : string) (s : State) :
  exists todo s' active done,
    addTodo now rnd36 text' s = (Normal todo, s') /\
    filterTodos "active" s = (Normal active, s) /\
    filterTodos "completed" s = (Normal done, s) /\
    filterTodos "active" s' = (Normal (active ++ [todo]), s') /\
    filterTodos "completed" s' = (Normal done, s') /\
    filterTodos "all" s' = (Normal (_todos s ++ [todo]), s').
Proof.
  eexists. eexists. eexists. eexists.
  split; [apply addTodo_run|]. split; [reflexivity|]. split; [reflexivity|].
  unfold filterTodos, bind, get_todos, ret. cbn [persisted _todos].
  cbn [String.eqb Ascii.eqb Bool.eqb].
  rewrite !filter_app. cbn [filter new_Todo completed ToBoolean negb].
  rewrite List.app_nil_r. repeat split.
Qed.

End store_cases.

(* ------------------------------------------------------------------------- *)
(** ** The page's handlers *)
(* ------------------------------------------------------------------------- *)

Section trimming.

Lemma trim_start_head (s : string) :
  trim_start s = EmptyString \/
  exists c r, trim_start s = String c r /\ is_white_space c = false.
Proof.
  induction s as [|c s IH]; cbn [trim_start]; [left; reflexivity|].
  destruct (is_white_space c) eqn:E; [exact IH|].
  right. exists c, s. split; [reflexivity | exact E].
Qed.

Lemma trim_end_idem (s : string) : trim_end (trim_end s) = trim_end s.
Proof.
  induction s as [|c s IH]; [reflexivity|]. cbn [trim_end].
  destruct (trim_end s) as [|d u] eqn:E.
  - destruct (is_white_space c) eqn:Ec; [reflexivity|].
    cbn [trim_end]. rewrite Ec. reflexivity.
  - cbn [trim_end]. cbn [trim_end] in IH. rewrite IH. reflexivity.
Qed.

Lemma trim_end_keeps_head (c : ascii) (r : string) :
  is_white_space c = false ->
  exists r', trim_end (String c r) = String c r'.
Proof.
  intros Hc. cbn [trim_end]. destruct (trim_end r).
  - rewrite Hc. eexists. reflexivity.
  - eexists. reflexivity.
Qed.

Lemma trim_idem (s : string) : trim (trim s) = trim s.
Proof.
  unfold trim.
  destruct (trim_start_head s) as [-> | (c & r & -> & Hc)]; [reflexivity|].
  destruct (trim_end_keeps_head c r Hc) as (r' & E).
  rewrite E. cbn [trim_start]. rewrite Hc, <- E. apply trim_end_idem.
Qed.

End trimming.

Section page_facts.
Context {host : JSONHost}.
Import TodoStore View.

Lemma lift_normal {A} (m : M A) (s s' : State) (p : Page) (a : A) :
  m s = (Normal a, s') -> lift m (s, p) = (Normal a, (s', p)).
Proof. intros H. unfold lift. cbn [fst snd]. rewrite H. reflexivity. Qed.

Lemma bindV_normal {A B} (m : V A) (k : A -> V B) (w w' : State * Page) (a : A) :
  m w = (Normal a, w') -> bindV m k w = k a w'.
Proof. intros H. unfold bindV. rewrite H. reflexivity. Qed.

(** Rendering completes, leaves the store alone, and makes the list show
    the filter in force. *)
Lemma render_current_run (s : State) (p : Page) :
  exists l,
    filterTodos (currentFilter p) s = (Normal l, s) /\
    render_current (s, p)
    = (Normal tt, (s, mkPage (newTodoInput_value p) l (currentFilter p)
                             (draggedTodoId p))).
Proof.
  destruct (filterTodos_run (currentFilter p) s) as (l & Hl & _).
  exists l. split; [exact Hl|].
  unfold render_current, renderTodoList, bindV, get_page. cbn [snd].
  rewrite (lift_normal _ _ _ _ _ Hl). reflexivity.
Qed.

Lemma render_current_shows (s : State) (p : Page) :
  exists p',
    render_current (s, p) = (Normal tt, (s, p')) /\
    shows_current_filter (s, p') /\
    newTodoInput_value p' = newTodoInput_value p /\
    currentFilter p' = currentFilter p /\
    draggedTodoId p' = draggedTodoId p.
Proof.
  destruct (render_current_run s p) as (l & Hl & Hrun).
  eexists. split; [exact Hrun|]. repeat split. exact Hl.
Qed.

(** A store call followed by rendering. *)
Lemma call_then_render (m : M unit) (s s' : State) (p : Page) :
  m s = (Normal tt, s') ->
  exists p',
    bindV (lift m) (fun _ => render_current) (s, p) = (Normal tt, (s', p')) /\
    shows_current_filter (s', p') /\
    newTodoInput_value p' = newTodoInput_value p /\
    currentFilter p' = currentFilter p /\
    draggedTodoId p' = draggedTodoId p.
Proof.
  intros H.
  rewrite (bindV_normal _ _ _ _ _ (lift_normal _ _ _ p _ H)).
  apply render_current_shows.
Qed.

(** X17.  Whatever happens on the page, the list keeps showing what the
    filter in force selects from the store: every handler completes, and if
    the list showed the current filter of the store before the event it
    does so after it. *)
Theorem list_always_shows_the_current_filter (e : event) (w : State * Page) :
  shows_current_filter w ->
  exists w',
    handle e w = (Normal tt, w') /\
    shows_current_filter w'.
Proof.
  destruct w as [s p]. intros Hshows.
  destruct e as [key now rnd36 | i | i todo_text content | i | i | | target
                | mode | ]; cbn [handle].
  - unfold on_keydown.
    destruct (key =? "Enter")%string; [|exists (s, p); split; [reflexivity | exact Hshows]].
    unfold bindV at 1. unfold get_page. cbn [snd].
    destruct (trim (newTodoInput_value p) =? EmptyString)%string; cbn [negb];
      [exists (s, p); split; [reflexivity | exact Hshows]|].
    rewrite (bindV_normal _ _ _ _ _
               (lift_normal _ _ _ p _ (addTodo_run now rnd36 _ s))).
    unfold bindV at 1. unfold set_newTodoInput_value. cbn [fst snd].
    match goal with
    | |- exists w', render_current (?s1, ?p1) = _ /\ _ =>
        destruct (render_current_shows s1 p1) as (p' & Hrun & Hs & _)
    end.
    eexists. split; [exact Hrun | exact Hs].
  - unfold on_change.
    destruct (perform_completes (Toggle i) s) as (s' & Hrun & _).
    destruct (call_then_render _ s s' p Hrun) as (p' & Hr & Hs & _).
    eexists. split; [exact Hr | exact Hs].
  - unfold on_blur.
    destruct (negb (trim content =? EmptyString)%string &&
              negb (strict_eq_str todo_text (trim content)));
      [|exists (s, p); split; [reflexivity | exact Hshows]].
    destruct (perform_completes (Edit i (trim content)) s) as (s' & Hrun & _).
    destruct (call_then_render _ s s' p Hrun) as (p' & Hr & Hs & _).
    eexists. split; [exact Hr | exact Hs].
  - unfold on_delete_click.
    destruct (perform_completes (Remove i) s) as (s' & Hrun & _).
    destruct (call_then_render _ s s' p Hrun) as (p' & Hr & Hs & _).
    eexists. split; [exact Hr | exact Hs].
  - eexists. split; [reflexivity | exact Hshows].
  - eexists. split; [reflexivity | exact Hshows].
  - unfold on_drop. unfold bindV at 1. unfold get_page. cbn [snd].
    destruct (draggedTodoId p) as [d|];
      [|exists (s, p); split; [reflexivity | exact Hshows]].
    destruct (negb (d =? EmptyString)%string &&
              negb (target =? EmptyString)%string);
      [|exists (s, p); split; [reflexivity | exact Hshows]].
    destruct (perform_completes (Reorder d target) s) as (s' & Hrun & _).
    destruct (call_then_render _ s s' p Hrun) as (p' & Hr & Hs & _).
    eexists. split; [exact Hr | exact Hs].
  - unfold on_filter_click. unfold bindV at 1. unfold set_currentFilter.
    cbn [fst snd].
    match goal with
    | |- exists w', render_current (?s1, ?p1) = _ /\ _ =>
        destruct (render_current_shows s1 p1) as (p' & Hrun & Hs & _)
    end.
    eexists. split; [exact Hrun | exact Hs].
  - unfold on_clear_completed_click.
    destruct (perform_completes ClearCompleted s) as (s' & Hrun & _).
    destruct (call_then_render _ s s' p Hrun) as (p' & Hr & Hs & _).
    eexists. split; [exact Hr | exact Hs].
Qed.


(** X18.  When the page has loaded, the handler completes whatever storage
    holds; the filter is ["all"], the list shows all the tasks loaded into
    memory, and storage and the input box are as they were. *)
Theorem page_starts_showing_all_loaded_tasks (w : State * Page) :
  exists w',
    on_DOMContentLoaded w = (Normal tt, w') /\
    loadFromStorage (fst w) = (Normal tt, fst w') /\
    currentFilter (snd w') = "all" /\
    todoList (snd w') = _todos (fst w') /\
    shows_current_filter w' /\
    newTodoInput_value (snd w') = newTodoInput_value (snd w).
Proof.
  destruct w as [s p]. cbn [fst snd].
  destruct (loadFromStorage_from_slot s s eq_refl) as (l & Hload & _).
  unfold on_DOMContentLoaded.
  rewrite (bindV_normal _ _ _ _ _ (lift_normal _ _ _ p _ Hload)).
  unfold bindV at 1. unfold set_currentFilter. cbn [fst snd].
  match goal with
  | |- exists w', render_current (?s1, ?p1) = _ /\ _ =>
      destruct (render_current_run s1 p1) as (shown & Hshown & Hrun)
  end.
  eexists. split; [exact Hrun|]. cbn [fst snd currentFilter todoList] in *.
  split; [exact Hload|]. split; [reflexivity|].
  split; [|split; [exact Hshown | reflexivity]].
  unfold filterTodos, bind, get_todos, ret in Hshown. cbn in Hshown.
  injection Hshown as <-. reflexivity.
Qed.

(** X19.  A key other than Enter, or Enter on an input that is empty or all
    white space, changes nothing, not even the input box.  Enter on any
    other input adds one task, whose text is the input without the white
    space at its ends, empties the input box, keeps the filter and shows the
    list anew. *)
Theorem keydown_adds_the_trimmed_input
    (key : string) (now : N) (rnd36 : string) (s : State) (p : Page) :
  (key <> "Enter" \/ trim (newTodoInput_value p) = EmptyString ->
   on_keydown key now rnd36 (s, p) = (Normal tt, (s, p))) /\
  (key = "Enter" -> trim (newTodoInput_value p) <> EmptyString ->
   exists todo s' p',
     addTodo now rnd36 (trim (newTodoInput_value p)) s = (Normal todo, s') /\
     on_keydown key now rnd36 (s, p) = (Normal tt, (s', p')) /\
     _todos s' = _todos s ++ [todo] /\
     text todo = VStr (trim (newTodoInput_value p)) /\
     newTodoInput_value p' = EmptyString /\
     currentFilter p' = currentFilter p /\
     shows_current_filter (s', p')).
Proof.
  split.
  - intros [Hkey | Hblank]; unfold on_keydown.
    + apply String.eqb_neq in Hkey. rewrite Hkey. reflexivity.
    + destruct (key =? "Enter")%string; [|reflexivity].
      unfold bindV, get_page. cbn [snd]. rewrite Hblank. reflexivity.
  - intros -> Htext. unfold on_keydown. rewrite String.eqb_refl.
    unfold bindV at 1. unfold get_page. cbn [snd].
    apply String.eqb_neq in Htext. rewrite Htext. cbn [negb].
    rewrite (bindV_normal _ _ _ _ _
               (lift_normal _ _ _ p _ (addTodo_run now rnd36 _ s))).
    unfold bindV at 1. unfold set_newTodoInput_value. cbn [fst snd].
    match goal with
    | |- context [render_current (?s1, ?p1)] =>
        destruct (render_current_shows s1 p1) as (p' & Hrun & Hs & Hi & Hf & _)
    end.
    eexists. eexists. exists p'.
    split; [apply addTodo_run|]. split; [exact Hrun|].
    repeat split; assumption.
Qed.

(** X20.  The page never stores an untidy text: if every task's text is a
    non-empty string without white space at its ends, it is so again after
    any event, adding and editing included. *)
Theorem page_keeps_texts_tidy (e : event) (w : State * Page) :
  forallb tidy_text (_todos (fst w)) = true ->
  forallb tidy_text (_todos (fst (snd (handle e w)))) = true.
Proof.
  destruct w as [s p]. cbn [fst]. intros Htidy.
  assert (Htoggle : forall x, tidy_text x = true -> tidy_text (toggle x) = true)
    by (intros [xi xt xc] H; exact H).
  assert (Hnew : forall str x,
             trim str <> EmptyString ->
             tidy_text (setText (VStr (trim str)) x) = true).
  { intros str x Hne. unfold tidy_text. cbn [setText text].
    apply String.eqb_neq in Hne. rewrite Hne, trim_idem, String.eqb_refl.
    reflexivity. }
  assert (Hcall : forall (o : operation) (m : M unit),
             m = perform o ->
             forallb tidy_text (_todos (snd (perform o s))) = true ->
             forallb tidy_text
               (_todos (fst (snd (bindV (lift m) (fun _ => render_current)
                                        (s, p))))) = true).
  { intros o m -> H.
    destruct (perform_completes o s) as (s' & Hrun & _).
    destruct (call_then_render _ s s' p Hrun) as (p' & Hr & _).
    rewrite Hr. cbn [fst snd]. rewrite Hrun in H. exact H. }
  destruct e as [key now rnd36 | i | i todo_text content | i | i | | target
                | mode | ]; cbn [handle].
  - unfold on_keydown.
    destruct (key =? "Enter")%string; [|exact Htidy].
    unfold bindV at 1. unfold get_page. cbn [snd].
    destruct (trim (newTodoInput_value p) =? EmptyString)%string eqn:E;
      cbn [negb]; [exact Htidy|].
    rewrite (bindV_normal _ _ _ _ _
               (lift_normal _ _ _ p _ (addTodo_run now rnd36 _ s))).
    unfold bindV at 1. unfold set_newTodoInput_value. cbn [fst snd].
    match goal with
    | |- context [render_current (?s1, ?p1)] =>
        destruct (render_current_shows s1 p1) as (p' & Hrun & _)
    end.
    rewrite Hrun. cbn [fst snd persisted _todos].
    rewrite forallb_app, Htidy. cbn [forallb].
    apply String.eqb_neq in E.
    rewrite (Hnew _ (mkTodo VUndefined VUndefined VUndefined) E) at 1.
    reflexivity.
  - apply (Hcall (Toggle i)); [reflexivity|].
    apply perform_keeps; auto.
  - unfold on_blur.
    destruct (trim content =? EmptyString)%string eqn:E; cbn [negb andb];
      [exact Htidy|].
    destruct (strict_eq_str todo_text (trim content)); cbn [negb];
      [exact Htidy|].
    apply (Hcall (Edit i (trim content))); [reflexivity|].
    apply perform_keeps; auto.
    intros x _. apply Hnew. apply String.eqb_neq. exact E.
  - apply (Hcall (Remove i)); [reflexivity|].
    apply perform_keeps; auto.
  - exact Htidy.
  - exact Htidy.
  - unfold on_drop. unfold bindV at 1. unfold get_page. cbn [snd].
    destruct (draggedTodoId p) as [d|]; [|exact Htidy].
    destruct (negb (d =? EmptyString)%string &&
              negb (target =? EmptyString)%string); [|exact Htidy].
    apply (Hcall (Reorder d target)); [reflexivity|].
    apply perform_keeps; auto.
  - unfold on_filter_click. unfold bindV at 1. unfold set_currentFilter.
    cbn [fst snd].
    match goal with
    | |- context [render_current (?s1, ?p1)] =>
        destruct (render_current_shows s1 p1) as (p' & Hrun & _)
    end.
    rewrite Hrun. exact Htidy.
  - apply (Hcall ClearCompleted); [reflexivity|].
    apply perform_keeps; auto.
Qed.

(** X21.  Leaving the text of an item with only white space in it, or with
    the task's text as it was (apart from white space at the ends), changes
    nothing.  Leaving it with any other text gives the task that text,
    without the white space at its ends, and shows the list anew. *)
Theorem blur_edits_only_a_changed_text
    (i : string) (todo_text : value) (content : string)
    (s : State) (p : Page) :
  (trim content = EmptyString \/ todo_text = VStr (trim content) ->
   on_blur i todo_text content (s, p) = (Normal tt, (s, p))) /\
  (trim content <> EmptyString -> todo_text <> VStr (trim content) ->
   exists s' p',
     editTodo i (trim content) s = (Normal tt, s') /\
     on_blur i todo_text content (s, p) = (Normal tt, (s', p')) /\
     shows_current_filter (s', p')).
Proof.
  split.
  - intros [Hblank | Hsame]; unfold on_blur.
    + rewrite Hblank. reflexivity.
    + apply strict_eq_str_true in Hsame. rewrite Hsame, andb_false_r.
      reflexivity.
  - intros Hne Hdiff. unfold on_blur.
    apply String.eqb_neq in Hne. apply strict_eq_str_false in Hdiff.
    rewrite Hne, Hdiff. cbn [negb andb].
    destruct (perform_completes (Edit i (trim content)) s) as (s' & Hrun & _).
    destruct (call_then_render _ s s' p Hrun) as (p' & Hr & Hs & _).
    exists s', p'. repeat split; assumption.
Qed.

(** X22.  Dragging an item and dropping it on another one is
    [reorderTodos] with the two ids, followed by showing the list anew,
    provided neither id is the empty string.  A drop when nothing is being
    dragged, as after [dragend], changes nothing. *)
Theorem drag_and_drop_reorders
    (draggedId targetId : string) (s : State) (p : Page) :
  (draggedId <> EmptyString -> targetId <> EmptyString ->
   exists s' p',
     reorderTodos draggedId targetId s = (Normal tt, s') /\
     bindV (on_dragstart draggedId) (fun _ => on_drop targetId) (s, p)
     = (Normal tt, (s', p')) /\
     shows_current_filter (s', p') /\
     draggedTodoId p' = Some draggedId) /\
  (draggedTodoId p = None ->
   on_drop targetId (s, p) = (Normal tt, (s, p))) /\
  (exists p',
     bindV (on_dragstart draggedId)
           (fun _ => bindV on_dragend (fun _ => on_drop targetId)) (s, p)
     = (Normal tt, (s, p')) /\
     todoList p' = todoList p).
Proof.
  split; [|split].
  - intros Hd Ht.
    apply String.eqb_neq in Hd. apply String.eqb_neq in Ht.
    unfold bindV at 1. unfold on_dragstart, set_draggedTodoId. cbn [fst snd].
    unfold on_drop. unfold bindV at 1. unfold get_page.
    cbn [snd draggedTodoId]. rewrite Hd, Ht. cbn [negb andb].
    destruct (perform_completes (Reorder draggedId targetId) s)
      as (s' & Hrun & _).
    match goal with
    | |- context [(s, ?p1)] =>
        destruct (call_then_render _ s s' p1 Hrun) as (p' & Hr & Hs & _ & _ & Hdr)
    end.
    exists s', p'. repeat split; assumption.
  - intros Hnone. unfold on_drop, bindV, get_page. cbn [snd].
    rewrite Hnone. reflexivity.
  - eexists. split; reflexivity.
Qed.

End page_facts.

(* ------------------------------------------------------------------------- *)
(** ** The theorems above on the reference runtime *)
(* ------------------------------------------------------------------------- *)

Lemma deleteTodo_takes_out_first_match_witness :
  exists s' pre x post,
    TodoStore.deleteTodo (host := RefJSON.host) "b" three_tasks
    = (Normal tt, s') /\
    _todos three_tasks = pre ++ x :: post /\
    id x = VStr "b" /\
    Forall (fun y => id y <> VStr "b") pre /\
    _todos s' = pre ++ post /\
    in_sync (host := RefJSON.host) s'.
Proof.
  apply (deleteTodo_takes_out_first_match (host := RefJSON.host)
           three_tasks "b").
  simpl. tauto.
Defined.

Lemma deleted_id_shows_under_no_filter_witness :
  exists s' l,
    TodoStore.deleteTodo (host := RefJSON.host) "b" three_tasks
    = (Normal tt, s') /\
    TodoStore.filterTodos "completed" s' = (Normal l, s') /\
    ~ In (VStr "b") (map id l).
Proof.
  apply (deleted_id_shows_under_no_filter (host := RefJSON.host)
           three_tasks "b" "completed").
  repeat constructor; simpl; intuition discriminate.
Defined.

Lemma editTodo_changes_one_text_witness :
  exists s' pre x x' post,
    TodoStore.editTodo (host := RefJSON.host) "b" "walk cat" three_tasks
    = (Normal tt, s') /\
    _todos three_tasks = pre ++ x :: post /\
    Forall (fun y => id y <> VStr "b") pre /\
    id x = VStr "b" /\
    _todos s' = pre ++ x' :: post /\
    text x' = VStr "walk cat" /\
    id x' = id x /\
    completed x' = completed x /\
    in_sync (host := RefJSON.host) s'.
Proof.
  apply (editTodo_changes_one_text (host := RefJSON.host)
           three_tasks "b" "walk cat").
  simpl. tauto.
Defined.

Lemma toggleTodo_twice_restores_witness :
  exists s1 s2,
    TodoStore.toggleTodo (host := RefJSON.host) "b" three_tasks
    = (Normal tt, s1) /\
    TodoStore.toggleTodo (host := RefJSON.host) "b" s1 = (Normal tt, s2) /\
    _todos s2 = _todos three_tasks.
Proof.
  apply (toggleTodo_twice_restores (host := RefJSON.host) three_tasks "b").
  repeat constructor.
Defined.

Lemma ids_stay_distinct_witness :
  exists s',
    perform (host := RefJSON.host)
            (Add 1700000000000 "0.4fzyo82mvyr" "feed cat") three_tasks
    = (Normal tt, s') /\
    NoDup (map id (_todos s')).
Proof.
  apply (ids_stay_distinct (host := RefJSON.host)
           (Add 1700000000000 "0.4fzyo82mvyr" "feed cat") three_tasks).
  - repeat constructor; simpl; intuition discriminate.
  - vm_compute. intuition discriminate.
Defined.

Lemma dragged_task_is_never_last_witness :
  exists s' pre d post front back,
    TodoStore.reorderTodos (host := RefJSON.host) "a" "c" three_tasks
    = (Normal tt, s') /\
    _todos three_tasks = pre ++ d :: post /\
    id d = VStr "a" /\
    Forall (fun x => id x <> VStr "a") pre /\
    _todos s' = front ++ d :: back /\
    back <> [] /\
    last (_todos s') task_a = last (pre ++ post) task_a.
Proof.
  apply (dragged_task_is_never_last (host := RefJSON.host)
           three_tasks "a" "c" task_a).
  - discriminate.
  - simpl. tauto.
  - simpl. tauto.
Defined.

Lemma other_keys_are_untouched_witness :
  exists s',
    perform (host := RefJSON.host) ClearCompleted three_tasks
    = (Normal tt, s') /\
    localStorage s' "theme" = localStorage three_tasks "theme".
Proof.
  apply (other_keys_are_untouched (host := RefJSON.host)
           ClearCompleted three_tasks "theme").
  discriminate.
Defined.

Lemma session_keeps_tasks_typed_witness :
  exists s',
    perform_all (host := RefJSON.host)
                [Add 1700000000000 "0.4fzyo82mvyr" "feed cat";
                 Toggle "a"; Reorder "c" "a"; ClearCompleted]
                three_tasks
    = (Normal tt, s') /\
    forallb typed_task (_todos s') = true.
Proof.
  apply (session_keeps_tasks_typed (host := RefJSON.host)
           [Add 1700000000000 "0.4fzyo82mvyr" "feed cat";
            Toggle "a"; Reorder "c" "a"; ClearCompleted]
           three_tasks).
  reflexivity.
Defined.

Lemma session_stays_reloadable_witness :
  exists s',
    perform_all (host := RefJSON.host)
                [Add 1700000000000 "0.4fzyo82mvyr" "buy milk";
                 Add 1700000004000 "0.k2j91xq7c" "walk dog";
                 Toggle "17000000000004fzyo"; Remove "nobody"]
                fresh_session
    = (Normal tt, s') /\
    reloads (host := RefJSON.host) s'.
Proof.
  apply (session_stays_reloadable (host := RefJSON.host) RefJSONFacts.laws
           [Add 1700000000000 "0.4fzyo82mvyr" "buy milk";
            Add 1700000004000 "0.k2j91xq7c" "walk dog";
            Toggle "17000000000004fzyo"; Remove "nobody"]
           fresh_session).
  - reflexivity.
  - intros other Hsame. exists (mkState [] (localStorage other)).
    split; [|reflexivity].
    apply loadFromStorage_absent. rewrite Hsame. reflexivity.
Defined.

Lemma loadFromStorage_reads_storage_only_witness :
  TodoStore.loadFromStorage (host := RefJSON.host)
    (mkState [task_a] (localStorage (session_with "[{}]")))
  = TodoStore.loadFromStorage (host := RefJSON.host) (session_with "[{}]") /\
  TodoStore.loadFromStorage (host := RefJSON.host)
    (snd (TodoStore.loadFromStorage (host := RefJSON.host)
                                    (session_with "[{}]")))
  = TodoStore.loadFromStorage (host := RefJSON.host) (session_with "[{}]").
Proof.
  apply (loadFromStorage_reads_storage_only (host := RefJSON.host)
           (session_with "[{}]")
           (mkState [task_a] (localStorage (session_with "[{}]")))).
  reflexivity.
Defined.

Lemma list_always_shows_the_current_filter_witness :
  exists w',
    handle (host := RefJSON.host) (Change "a")
           (three_tasks, mkPage EmptyString [task_b] "completed" None)
    = (Normal tt, w') /\
    shows_current_filter w'.
Proof.
  apply (list_always_shows_the_current_filter (host := RefJSON.host)
           (Change "a")
           (three_tasks, mkPage EmptyString [task_b] "completed" None)).
  reflexivity.
Defined.

Lemma page_keeps_texts_tidy_witness :
  forallb tidy_text
    (_todos (fst (snd (handle (host := RefJSON.host)
                         (Blur "a" (VStr "buy milk") "  buy oat milk ")
                         (three_tasks, blank_page)))))
  = true.
Proof.
  apply (page_keeps_texts_tidy (host := RefJSON.host)
           (Blur "a" (VStr "buy milk") "  buy oat milk ")
           (three_tasks, blank_page)).
  reflexivity.
Defined.
